(** * notebook_utils: a shallow embedding of the OpenVINO notebooks helpers

    The Python module [notebook_utils] (kept in sync with the notebook
    [notebook_utils.ipynb]) offers four groups of helpers: files, images,
    visualization, and checks/alerts.  This development embeds the helpers
    as Rocq functions and proves the properties the specification states
    about them.

    Conventions of the embedding:
    - a Python exception is a constructor of [exn]; a call that may raise
      returns a [result];
    - the file system, the network and the notebook output area are explicit
      state, threaded through the stateful helpers;
    - NumPy arrays are a shape together with the flat (row-major) list of
      their elements; element-wise operations act on the flat list;
    - OpenCV, urllib and the inference-engine runtime are not part of the
      repository: what the helpers need from them is taken as a parameter
      or given by a small model marked as a library model. *)

From Stdlib Require Import ZArith QArith String Ascii List Lia.
From stdpp Require Import base option list strings gmap.

Set Default Proof Using "Type".
Open Scope string_scope.
Open Scope list_scope.
Open Scope Z_scope.

Module notebook_utils.

(** ** Exceptions and results *)

Inductive exn : Type :=
| ValueError          (* raised by the helpers' own argument checks, and by NumPy *)
| IndexError          (* tuple / array index out of range *)
| UnboundLocalError   (* a local variable read before any assignment *)
| HTTPError           (* urllib.error.HTTPError, not caught *)
| DownloadFailed      (* the plain [Exception] download_file raises for an HTTPError *)
| CvError.            (* cv2.error *)

Inductive result (A : Type) : Type :=
| Ok (a : A)
| Raise (e : exn).
Arguments Ok {A} a.
Arguments Raise {A} e.

(** [result] is the error monad; stdpp's [x ← m; k] notation is used for it. *)
#[global] Instance result_ret : MRet result := λ A a, Ok a.
#[global] Instance result_bind : MBind result := λ A B k r,
  match r with
  | Ok a => k a
  | Raise e => Raise e
  end.

(** ** Python strings *)

(** Python's [hay.startswith(needle)]. *)
Fixpoint str_startswith (needle hay : string) : bool :=
  match needle, hay with
  | EmptyString, _ => true
  | String a n', String b h' => Ascii.eqb a b && str_startswith n' h'
  | String _ _, EmptyString => false
  end.

(** Python's [needle in hay] on [str]: [needle] starts at some position of
    [hay]. *)
Fixpoint str_contains (needle hay : string) : bool :=
  str_startswith needle hay ||
  match hay with
  | EmptyString => false
  | String _ h' => str_contains needle h'
  end.

(** Python's [sep.join(l)]. *)
Fixpoint join (sep : string) (l : list string) : string :=
  match l with
  | [] => ""
  | [x] => x
  | x :: xs => x +:+ sep +:+ join sep xs
  end.

(** ** Files *)

(** *** Library model: paths, URLs, the network and the file system *)

(** A [pathlib.Path] is its tuple of [parts]; an absolute path starts with
    the part "/" (as [Path('/tmp/x').parts] does). *)
Definition path := list string.

Fixpoint split_on (sep : ascii) (s : string) : list string :=
  match s with
  | EmptyString => [EmptyString]
  | String c s' =>
      if Ascii.eqb c sep then EmptyString :: split_on sep s'
      else match split_on sep s' with
           | [] => [String c EmptyString]
           | w :: ws => String c w :: ws
           end
  end.

Definition proper_part (w : string) : bool :=
  negb (String.eqb w "") && negb (String.eqb w ".").

(** [Path(s)]: empty components and "." are dropped, a leading slash is kept
    as the root part. *)
Definition Path (s : string) : path :=
  let comps := filter (λ w, proper_part w = true) (split_on "/" s) in
  if str_startswith "/" s then "/" :: comps else comps.

Definition is_absolute (p : path) : bool :=
  match p with
  | root :: _ => String.eqb root "/"
  | [] => false
  end.

(** [d / p]: an absolute right operand replaces the left one. *)
Definition path_join (d p : path) : path :=
  if is_absolute p then p else d ++ p.

(** [Path(urllib.parse.urlparse(url).path).name] for URLs of the form
    scheme://host/path?query#fragment: the last component of the path, or the
    empty string when the path has none. *)
Definition strip_after (sep : ascii) (s : string) : string :=
  match split_on sep s with
  | w :: _ => w
  | [] => s
  end.

Definition url_path_name (url : string) : string :=
  let plain := strip_after "?" (strip_after "#" url) in
  let comps := split_on "/" plain in
  let comps := match comps with
               | _scheme :: "" :: _host :: rest => rest
               | _ => comps
               end in
  List.last (filter (λ w, proper_part w = true) comps) "".

(** What the helpers read from the object [urlopen] returns. *)
Record response : Type := {
  get_filename : option string;    (* info().get_filename(), from Content-Disposition *)
  content_length : option nat;     (* info().get("Content-Length"), when present *)
  body : list Byte.byte
}.

Inductive event : Type :=
| Opened (url : string)                                       (* urlopen(url) *)
| Retrieved (url : string) (target : path) (progress : bool)  (* urlretrieve(url, target, cb) *)
| MadeDir (dir : path)                                        (* mkdir(parents, exist_ok) *)
| AlreadyExists (target : path).                              (* the printed notice *)

(** The part of the outside world [download_file] touches.  Only regular
    files are tracked: directories carry no data, and creating one is
    recorded in the trace.  A URL missing from [net] answers with an HTTP
    error; a URL in [net] answers every request with the same response,
    delivered whole and without a Range header ever being sent. *)
Record world : Type := {
  net : gmap string response;
  files : gmap path (list Byte.byte);
  cwd : path;
  trace : list event
}.

Definition log (e : event) (w : world) : world :=
  {| net := net w; files := files w; cwd := cwd w; trace := trace w ++ [e] |}.

Definition write_file (p : path) (content : list Byte.byte) (w : world) : world :=
  {| net := net w; files := <[p := content]> (files w); cwd := cwd w; trace := trace w |}.

(** [p.resolve()], without symbolic links or ".." components. *)
Definition resolve (w : world) (p : path) : path :=
  if is_absolute p then p else cwd w ++ p.

(** Stateful computations that may raise: the world after an exception is
    the one reached when it was raised. *)
Definition io (A : Type) : Type := world → result A * world.

#[global] Instance io_ret : MRet io := λ A a w, (Ok a, w).
#[global] Instance io_bind : MBind io := λ A B k m w,
  match m w with
  | (Ok a, w') => k a w'
  | (Raise e, w') => (Raise e, w')
  end.

Definition raise {A} (e : exn) : io A := λ w, (Raise e, w).

(** [try: m  except HTTPError: raise Exception(...) from None]. *)
Definition rewrap_HTTPError {A} (m : io A) : io A := λ w,
  match m w with
  | (Raise HTTPError, w') => (Raise DownloadFailed, w')
  | r => r
  end.

(** [urllib.request.urlopen(url)]: one GET, of which only the headers are read
    by the caller. *)
Definition urlopen (url : string) : io response := λ w,
  match net w !! url with
  | Some r => (Ok r, log (Opened url) w)
  | None => (Raise HTTPError, log (Opened url) w)
  end.

(** [urllib.request.urlretrieve(url, filename, reporthook)]: one GET of the
    whole resource, written to [filename]. *)
Definition urlretrieve (url : string) (filename : path) (progress : bool) : io unit := λ w,
  match net w !! url with
  | Some r =>
      (Ok (), write_file (resolve w filename) (body r) (log (Retrieved url filename progress) w))
  | None => (Raise HTTPError, log (Retrieved url filename progress) w)
  end.

Definition mkdir (d : path) : io unit := λ w, (Ok (), log (MadeDir d) w).

Definition print_exists (p : path) : io unit := λ w, (Ok (), log (AlreadyExists p) w).

(** [filename.exists()] *)
Definition exists_ (p : path) : io bool := λ w,
  (Ok (bool_decide (is_Some (files w !! resolve w p))), w).

(** [os.stat(filename).st_size], on a file that exists. *)
Definition st_size (p : path) : io nat := λ w,
  (Ok (from_option length 0%nat (files w !! resolve w p)), w).

(** [filename.resolve()] *)
Definition resolved (p : path) : io path := λ w, (Ok (resolve w p), w).

(** Python's [a or b] on an optional string: [None] and the empty string are falsy. *)
Definition str_or (a : option string) (b : string) : string :=
  match a with
  | Some s => if String.eqb s "" then b else s
  | None => b
  end.

(** *** download_file *)

(** [urlobject] is assigned only under [if filename is None]; [None] below
    stands for the name still being unbound. *)
Definition download_file (url : string) (filename : option string)
    (directory : option string) (show_progress : bool) : io path :=
  '(urlobject, filename) ←
      match filename with
      | None =>
          rewrap_HTTPError (
            urlobject ← urlopen url;
            mret (Some urlobject, str_or (get_filename urlobject) (url_path_name url)))
      | Some filename => mret (None : option response, filename)
      end;
  let filename := Path filename in
  if decide (1 < length filename)%nat then raise ValueError else
  (* create the directory if it does not exist, and add the directory to the filename *)
  filename ←
      match directory with
      | Some directory =>
          let directory := Path directory in
          _ ← mkdir directory;
          mret (path_join directory filename)
      | None => mret filename
      end;
  (* download the file if it does not exist, or if it exists with an incorrect file size *)
  urlobject ← match urlobject with
              | Some r => mret r
              | None => raise UnboundLocalError
              end;
  let urlobject_size := default 0%nat (content_length urlobject) in
  present ← exists_ filename;
  same_size ← (if present then size ← st_size filename; mret (bool_decide (size = urlobject_size))
               else mret false);
  _ ← (if negb present || negb same_size
       then urlretrieve url filename show_progress
       else print_exists filename);
  resolved filename.

(** *** download_ir_model *)

(** Python's [s[:-4]]: all but the last four characters (empty when [s] is
    shorter). *)
Definition drop_last4 (s : string) : string :=
  String.substring 0 (String.length s - 4) s.

Definition download_ir_model (model_xml_url : string) (destination_folder : option string)
  : io path :=
  let model_bin_url := drop_last4 model_xml_url +:+ ".bin" in
  model_xml_path ← download_file model_xml_url None destination_folder false;
  _ ← download_file model_bin_url None destination_folder true;
  mret model_xml_path.

(** ** Images *)

(** *** normalize_minmax *)

(** The element type of an integer NumPy array.  Arithmetic between an array
    and a scalar of its own type stays in that type and wraps around. *)
Inductive dtype : Type :=
| Signed (bits : positive)      (* int8, int16, int32, int64 *)
| Unsigned (bits : positive).   (* uint8, uint16, ... *)

Definition dtype_min (t : dtype) : Z :=
  match t with
  | Signed w => - 2 ^ (Z.pos w - 1)
  | Unsigned _ => 0
  end.

Definition dtype_max (t : dtype) : Z :=
  match t with
  | Signed w => 2 ^ (Z.pos w - 1) - 1
  | Unsigned w => 2 ^ Z.pos w - 1
  end.

Definition wrap (t : dtype) (z : Z) : Z :=
  match t with
  | Signed w => (z + 2 ^ (Z.pos w - 1)) mod 2 ^ Z.pos w - 2 ^ (Z.pos w - 1)
  | Unsigned w => z mod 2 ^ Z.pos w
  end.

(** [data.max()] and [data.min()]: NumPy raises ValueError on an empty array. *)
Definition amax (data : list Z) : result Z :=
  match data with
  | [] => Raise ValueError
  | x :: xs => Ok (foldr Z.max x xs)
  end.

Definition amin (data : list Z) : result Z :=
  match data with
  | [] => Raise ValueError
  | x :: xs => Ok (foldr Z.min x xs)
  end.

(** [normalize_minmax] on an integer array of element type [t], given by its
    flat list of elements (the shape is carried over unchanged by the
    element-wise operations).  The true division yields floating-point
    numbers; they are rendered here as exact rationals. *)
Definition normalize_minmax (t : dtype) (data : list Z) : result (list Q) :=
  mx ← amax data;
  mn ← amin data;
  if (mx =? mn)%Z then Raise ValueError
  else
    let shifted := map (λ x, wrap t (x - mn)) data in     (* data - data.min() *)
    let span := wrap t (mx - mn) in                       (* data.max() - data.min() *)
    Ok (map (λ n, (inject_Z n / inject_Z span)%Q) shifted).

(** *** to_rgb, to_bgr *)

(** Library model: [cv2.cvtColor] on a three-channel image, for the two
    conversion codes the helpers use.  Both reverse the channel order. *)
Inductive conversion_code : Type := COLOR_BGR2RGB | COLOR_RGB2BGR.

Definition cvtColor {A : Type} (image_data : list (A * A * A)) (code : conversion_code)
  : list (A * A * A) :=
  match code with
  | COLOR_BGR2RGB => map (λ '(b, g, r), (r, g, b)) image_data
  | COLOR_RGB2BGR => map (λ '(r, g, b), (b, g, r)) image_data
  end.

Definition to_rgb {A : Type} (image_data : list (A * A * A)) : list (A * A * A) :=
  cvtColor image_data COLOR_BGR2RGB.

Definition to_bgr {A : Type} (image_data : list (A * A * A)) : list (A * A * A) :=
  cvtColor image_data COLOR_RGB2BGR.

(** ** Visualization *)

(** A NumPy array of integers: shape and flat row-major contents. *)
Record ndarray : Type := {
  shape : list nat;
  data : list Z
}.

Definition color : Type := Z * Z * Z.

(** An (H, W, 3) uint8 array, pixel by pixel in row-major order. *)
Record image : Type := {
  height : nat;
  width : nat;
  pixels : list color
}.

Inductive contour_mode : Type := RETR_EXTERNAL | RETR_TREE.

(** What [segmentation_map_to_image] asks of OpenCV.  [findContours] is
    always called with CHAIN_APPROX_SIMPLE and answers [None] when OpenCV
    rejects its input (cv2.error); [drawContours] is always called with
    contourIdx=-1 and thickness=FILLED and returns the updated image. *)
Record OpenCV : Type := {
  contours : Type;
  findContours : ndarray → contour_mode → option contours;
  drawContours : image → contours → color → image
}.

(** [a.shape[i]] *)
Definition shape_at (a : ndarray) (i : nat) : result nat :=
  match shape a !! i with
  | Some n => Ok n
  | None => Raise IndexError
  end.

(** [np.unique(a)], up to order. *)
Definition np_unique (a : ndarray) : list Z := remove_dups (data a).

(** [a.squeeze(0)] *)
Definition squeeze0 (a : ndarray) : result ndarray :=
  match shape a with
  | 1%nat :: s => Ok {| shape := s; data := data a |}
  | _ => Raise ValueError
  end.

(** [a.astype(np.uint8)] on integers: reduction modulo 256. *)
Definition astype_uint8 (a : ndarray) : ndarray :=
  {| shape := shape a; data := map (λ v, v mod 256) (data a) |}.

(** [np.zeros((h, w, 3), dtype=np.uint8)] *)
Definition zeros (h w : nat) : image :=
  {| height := h; width := w; pixels := replicate (h * w) (0, 0, 0) |}.

(** [enumerate(l)] *)
Definition enumerate {A : Type} (l : list A) : list (nat * A) :=
  zip (seq 0 (length l)) l.

(** [(res == label_index).astype(np.uint8) * 255] *)
Definition label_index_map (res : ndarray) (label_index : nat) : ndarray :=
  {| shape := shape res;
     data := map (λ v, if (v =? Z.of_nat label_index)%Z then 255 else 0) (data res) |}.

(** The body of [for label_index, color in enumerate(colormap)], run over the
    remaining rows. *)
Fixpoint fill_labels (cv : OpenCV) (res : ndarray) (mode : contour_mode)
    (rows : list (nat * color)) (mask : image) : result image :=
  match rows with
  | [] => Ok mask
  | (label_index, color) :: rows' =>
      match findContours cv (label_index_map res label_index) mode with
      | None => Raise CvError
      | Some found => fill_labels cv res mode rows' (drawContours cv mask found color)
      end
  end.

Definition segmentation_map_to_image (cv : OpenCV) (res : ndarray) (colormap : list color)
    (remove_holes : bool) : result image :=
  (* if len(result.shape) != 2 and result.shape[0] != 1: raise ValueError *)
  bad_shape ← (if decide (length (shape res) ≠ 2%nat)
               then s0 ← shape_at res 0; mret (bool_decide (s0 ≠ 1%nat))
               else mret false);
  if (bad_shape : bool) then Raise ValueError else
  res ← (if decide (length colormap < length (np_unique res))%nat
         then
           (* the message of the ValueError formats colormap[0] *)
           match colormap with
           | [] => Raise IndexError
           | _ :: _ => Raise ValueError
           end
         else
           s0 ← shape_at res 0;
           if decide (s0 = 1%nat) then squeeze0 res else mret res);
  let res := astype_uint8 res in
  let contour_mode := if remove_holes then RETR_EXTERNAL else RETR_TREE in
  h ← shape_at res 0;
  w ← shape_at res 1;
  fill_labels cv res contour_mode (enumerate colormap) (zeros h w).

(** ** Checks and alerts *)

(** What the helpers see of the inference-engine runtime. *)
Record runtime : Type := {
  available_devices : list string;   (* IECore().available_devices *)
  get_version : string               (* openvino.inference_engine.get_version() *)
}.

(** The notebook output area: the HTML fragments displayed so far. *)
Definition output := list string.

Definition dquote : string := String (ascii_of_nat 34) EmptyString.

(** [NotebookAlert.show_message]: display(HTML(f"<div class=...>{message}")). *)
Definition alert_html (alert_class message : string) : string :=
  "<div class=" +:+ dquote +:+ "alert alert-" +:+ alert_class +:+ dquote +:+ ">" +:+ message.

(** [NotebookAlert.__init__]: stores the fields and shows the message. *)
Definition NotebookAlert (message alert_class : string) (out : output) : output :=
  out ++ [alert_html alert_class message].

Definition DeviceNotFound_message (rt : runtime) (device : string) : string :=
  let supported_devices := available_devices rt in
  let message :=
    "Running this cell requires a " +:+ device +:+ " device, "
    +:+ "which is not available on this system. " in
  match supported_devices with
  | [d] => message +:+ "The following device is available: " +:+ d
  | _ => message +:+ "The following devices are available: "
                 +:+ join ", " (available_devices rt)
  end.

(** [DeviceNotFoundAlert.__init__]. *)
Definition DeviceNotFoundAlert (rt : runtime) (device : string) (out : output) : output :=
  NotebookAlert (DeviceNotFound_message rt device) "warning" out.

(** [device not in ie.available_devices]: list membership by string equality. *)
Definition check_device (rt : runtime) (device : string) (out : output) : bool * output :=
  if negb (existsb (String.eqb device) (available_devices rt))
  then (false, DeviceNotFoundAlert rt device out)
  else (true, out).

Definition version_message (version installed_version : string) : string :=
  "This notebook requires OpenVINO " +:+ version +:+ ". "
  +:+ "The version on your system is: <i>" +:+ installed_version +:+ "</i>.<br>"
  +:+ "Please run <span style='font-family:monospace'>pip install --upgrade -r requirements.txt</span> "
  +:+ "in the openvino_env environment to install this version. "
  +:+ "See the <a href='https://github.com/openvinotoolkit/openvino_notebooks'>"
  +:+ "OpenVINO Notebooks README</a> for detailed instructions".

Definition check_openvino_version (rt : runtime) (version : string) (out : output)
  : bool * output :=
  let installed_version := get_version rt in
  if negb (str_contains version installed_version)
  then (false, NotebookAlert (version_message version installed_version) "danger" out)
  else (true, out).

End notebook_utils.

Import notebook_utils.

(** * Vocabulary of the statements *)

(** ** Strings *)

(** [needle] occurs in [hay] as a contiguous run of characters. *)
Definition occurs_in (needle hay : string) : Prop :=
  ∃ pre post, hay = pre +:+ needle +:+ post.

(** ** Files *)

(** The name [download_file] computes when none is given. *)
Definition default_name (url : string) (r : response) : string :=
  str_or (get_filename r) (url_path_name url).

(** The path the file is saved under, before it is resolved. *)
Definition target_path (directory : option string) (name : string) : path :=
  match directory with
  | Some d => path_join (Path d) (Path name)
  | None => Path name
  end.

Definition directory_path (directory : option string) : path :=
  match directory with
  | Some d => Path d
  | None => []
  end.

Definition made_dir (directory : option string) : list event :=
  match directory with
  | Some d => [MadeDir (Path d)]
  | None => []
  end.

(** A name that denotes a file: one path component, not the root. *)
Definition is_file_name (name : string) : Prop :=
  ∃ c, Path name = [c] ∧ c ≠ "/".

(** The decision of [download_file]: the target is missing, or its size
    differs from the Content-Length (0 when the header is absent). *)
Definition needs_download (w : world) (target : path) (r : response) : bool :=
  match files w !! resolve w target with
  | None => true
  | Some content => negb (bool_decide (length content = default 0%nat (content_length r)))
  end.

(** The world after [download_file] went through with [target]. *)
Definition after_download (url : string) (directory : option string) (show_progress : bool)
    (r : response) (w : world) : world :=
  let target := target_path directory (default_name url r) in
  {| net := net w;
     files := if needs_download w target r
              then <[resolve w target := body r]> (files w) else files w;
     cwd := cwd w;
     trace := trace w ++ [Opened url] ++ made_dir directory
              ++ [if needs_download w target r
                  then Retrieved url target show_progress else AlreadyExists target] |}.

(** *** Sample worlds *)

Definition xml_url : string := "https://host/models/segmentation.xml".
Definition bin_url : string := "https://host/models/segmentation.bin".

Definition xml_response : response :=
  {| get_filename := None; content_length := Some 3%nat;
     body := [Byte.x3c; Byte.x78; Byte.x3e] |}.

Definition bin_response : response :=
  {| get_filename := None; content_length := Some 2%nat; body := [Byte.x00; Byte.x01] |}.

(** Nothing downloaded yet. *)
Definition fresh_world : world :=
  {| net := {[ xml_url := xml_response; bin_url := bin_response ]};
     files := ∅;
     cwd := ["/"; "home"; "user"];
     trace := [] |}.

(** The xml file is in ./model, cut short after its first byte. *)
Definition interrupted_world : world :=
  {| net := {[ xml_url := xml_response; bin_url := bin_response ]};
     files := {[ ["/"; "home"; "user"; "model"; "segmentation.xml"] := [Byte.x3c] ]};
     cwd := ["/"; "home"; "user"];
     trace := [] |}.

(** Both model files are already in ./model, complete. *)
Definition cached_world : world :=
  {| net := {[ xml_url := xml_response; bin_url := bin_response ]};
     files := {[ ["/"; "home"; "user"; "model"; "segmentation.xml"] := body xml_response;
                 ["/"; "home"; "user"; "model"; "segmentation.bin"] := body bin_response ]};
     cwd := ["/"; "home"; "user"];
     trace := [] |}.

(** *** Traces *)

(** The URLs of the retrievals recorded in a trace, in order. *)
Definition retrieved_url (e : event) : option string :=
  match e with
  | Retrieved url _ _ => Some url
  | _ => None
  end.

Definition retrieved_urls (tr : list event) : list string := omap retrieved_url tr.

(** [model_xml_url[:-4] + ".bin"] *)
Definition weights_url (model_xml_url : string) : string :=
  drop_last4 model_xml_url +:+ ".bin".

(** ** Images *)

(** [m] is the least (greatest) element of [l], up to equality of rationals. *)
Definition minimum_is (m : Q) (l : list Q) : Prop :=
  (∃ x, x ∈ l ∧ (x == m)%Q) ∧ ∀ x, x ∈ l → (m <= x)%Q.

Definition maximum_is (m : Q) (l : list Q) : Prop :=
  (∃ x, x ∈ l ∧ (x == m)%Q) ∧ ∀ x, x ∈ l → (x <= m)%Q.

(** ** Visualization *)

(** *** The reference mapping: a color lookup table applied per pixel *)

Definition lookup_color (colormap : list color) (v : Z) : color :=
  nth (Z.to_nat v) colormap (0, 0, 0).

Definition lookup_table_image (h w : nat) (labels : list Z) (colormap : list color) : image :=
  {| height := h; width := w; pixels := map (lookup_color colormap) labels |}.

(** *** The loop as the specification words it

    One pass over the class indices 0, 1, ..., n-1 in increasing order; for
    each, the binary mask of the pixels equal to the index, the contours of
    that mask (external only when holes are to be removed, the full tree
    otherwise), and the fill of these contours with the color of the class. *)
Definition binary_mask (res : ndarray) (k : nat) : ndarray :=
  {| shape := shape res; data := map (λ v, if decide (v = Z.of_nat k) then 255 else 0) (data res) |}.

Definition paint_class (cv : OpenCV) (res : ndarray) (colormap : list color)
    (remove_holes : bool) (acc : result image) (k : nat) : result image :=
  mask ← acc;
  match findContours cv (binary_mask res k)
          (if remove_holes then RETR_EXTERNAL else RETR_TREE) with
  | Some found => Ok (drawContours cv mask found (lookup_color colormap (Z.of_nat k)))
  | None => Raise CvError
  end.

Definition paint_classes_in_order (cv : OpenCV) (res : ndarray) (colormap : list color)
    (remove_holes : bool) (mask : image) : result image :=
  foldl (paint_class cv res colormap remove_holes) (Ok mask) (seq 0 (length colormap)).

(** *** Library model: an idealised OpenCV

    The contours of a mask are represented by the region their fill covers:
    with RETR_TREE (holes are contours too, and the fill alternates) exactly
    the nonzero pixels; with RETR_EXTERNAL the nonzero pixels together with
    every zero pixel that no path of 4-neighbour steps through zero pixels
    connects to the image frame.  Filling writes the saturated color. *)
Definition saturate_cast (v : Z) : Z := Z.max 0 (Z.min 255 v).

Definition saturate (c : color) : color :=
  let '(r, g, b) := c in (saturate_cast r, saturate_cast g, saturate_cast b).

Definition on_frame (h w i : nat) : bool :=
  let row := (i / w)%nat in
  let col := (i mod w)%nat in
  bool_decide (row = 0 ∨ S row = h ∨ col = 0 ∨ S col = w)%nat.

Definition grow_outside (h w : nat) (fg outside : list bool) : list bool :=
  imap (λ i (f : bool),
          negb f &&
          (on_frame h w i
           || default false (outside !! (i - 1)%nat)
           || default false (outside !! (i + 1)%nat)
           || default false (outside !! (i - w)%nat)
           || default false (outside !! (i + w)%nat))) fg.

Definition outside_region (h w : nat) (fg : list bool) : list bool :=
  Nat.iter (length fg) (grow_outside h w fg) (replicate (length fg) false).

Definition filled_region (h w : nat) (mode : contour_mode) (mask : list Z) : list bool :=
  let fg := map (λ v, negb (v =? 0)%Z) mask in
  match mode with
  | RETR_TREE => fg
  | RETR_EXTERNAL => map negb (outside_region h w fg)
  end.

Definition ideal_cv : OpenCV := {|
  contours := list bool;
  findContours a mode :=
    match shape a with
    | [h; w] => Some (filled_region h w mode (data a))
    | _ => None
    end;
  drawContours img region c :=
    {| height := height img; width := width img;
       pixels := zip_with (λ (inside : bool) px, if inside then saturate c else px)
                          region (pixels img) |}
|}.

(** *** Sample arrays *)

(** A square of class 1 with a hole of class 0 in it, on a ground of class 0. *)
Definition ring : ndarray :=
  {| shape := [5; 5]%nat;
     data := [0; 0; 0; 0; 0;
              0; 1; 1; 1; 0;
              0; 1; 0; 1; 0;
              0; 1; 1; 1; 0;
              0; 0; 0; 0; 0] |}.

Definition three_colors : list color := [(10, 10, 10); (20, 20, 20); (30, 30, 30)].

(** A colormap of 257 rows: row i is (i mod 256, i / 256, 7). *)
Definition wide_colormap : list color :=
  map (λ i, (i mod 256, i / 256, 7)) (seqZ 0 257).

(** Three planes of one row each: neither (H,W) nor (1,H,W). *)
Definition three_planes : ndarray :=
  {| shape := [3; 1; 2]%nat; data := [0; 1; 1; 0; 1; 1] |}.

(** One row of two pixels of class 0, as a two-dimensional array. *)
Definition one_row : ndarray := {| shape := [1; 2]%nat; data := [0; 0] |}.

(** Two pixels, of classes 256 and 0. *)
Definition wide_result : ndarray := {| shape := [2; 1]%nat; data := [256; 0] |}.

(** *** The assumption on OpenCV, and the loop invariant *)

(** A color whose channels are 8-bit values. *)
Definition in_gamut (c : color) : Prop :=
  let '(r, g, b) := c in 0 ≤ r ≤ 255 ∧ 0 ≤ g ≤ 255 ∧ 0 ≤ b ≤ 255.

(** What the equality with the lookup table asks of OpenCV on masks of
    [h] by [w] pixels: with the full contour tree, filling the contours found
    in a 0/255 mask repaints the nonzero pixels of the mask, and only them. *)
Definition fills_exactly (cv : OpenCV) (h w : nat) : Prop :=
  ∀ (mask_data : list Z) (img : image) (c : color),
    length mask_data = (h * w)%nat →
    (∀ v, v ∈ mask_data → v = 0 ∨ v = 255) →
    height img = h → width img = w → length (pixels img) = (h * w)%nat →
    ∃ found,
      findContours cv {| shape := [h; w]; data := mask_data |} RETR_TREE = Some found
      ∧ drawContours cv img found c
        = {| height := h; width := w;
             pixels := zip_with (λ v px, if (v =? 0)%Z then px else saturate c)
                         mask_data (pixels img) |}.

(** The color of a pixel of class [v] after the rows [rows], which are those
    of the classes [k], [k+1], ..., have been painted over the color [px]. *)
Definition repaint (k : nat) (rows : list color) (v : Z) (px : color) : color :=
  if decide (Z.of_nat k ≤ v) then default px (rows !! (Z.to_nat v - k)%nat) else px.

(** * Further sample data *)

(** A URL whose response names its file, with a directory in the name and no
    Content-Length. *)
Definition header_world : world :=
  {| net := {[ "https://host/get?id=7" :=
                 {| get_filename := Some "weights/model.bin"; content_length := None;
                    body := [Byte.x00] |} ]};
     files := ∅;
     cwd := ["/"; "home"; "user"];
     trace := [] |}.

(** A URL that answers without a Content-Length; its file is already there,
    complete. *)
Definition headerless_response : response :=
  {| get_filename := None; content_length := None; body := [Byte.x41; Byte.x42] |}.

Definition headerless_world : world :=
  {| net := {[ "https://host/latest" := headerless_response ]};
     files := {[ ["/"; "home"; "user"; "latest"] := body headerless_response ]};
     cwd := ["/"; "home"; "user"];
     trace := [] |}.

(** The xml file of a model is online, its weights are not. *)
Definition xml_only_world : world :=
  {| net := {[ "https://host/latest.xml" := xml_response ]};
     files := ∅;
     cwd := ["/"; "home"; "user"];
     trace := [] |}.

(** * Further embedded code: notebook_utils *)

Module notebook_utils_files.

(** ** load_image *)

(** What [load_image] asks of OpenCV, for images of type [A].  [imdecode] is
    [cv2.imdecode(array, -1)] on the bytes of a response: it may raise
    cv2.error and answers [None] for bytes that are no image.  [imread_decode]
    is what [cv2.imread] makes of the content of a file it could open: [None]
    for content that is no image; [cv2.imread] itself never raises on a path
    and returns [None] for a file that is not there. *)
Record ImageCodecs (A : Type) : Type := {
  imdecode : list Byte.byte → result (option A);
  imread_decode : list Byte.byte → option A
}.
Arguments imdecode {A} _ _.
Arguments imread_decode {A} _ _.

(** [cv2.imread(path)] *)
Definition imread {A : Type} (cv : ImageCodecs A) (path : string) : io (option A) := λ w,
  (Ok (files w !! resolve w (Path path) ≫= imread_decode cv), w).

Definition load_image {A : Type} (cv : ImageCodecs A) (path : string) : io (option A) :=
  if str_startswith "http" path then
    (* Request with a User-Agent header; an HTTPError is not caught *)
    response ← urlopen path;
    ((λ w, (imdecode cv (body response), w)) : io (option A))
  else
    imread cv path.

(** ** DownloadProgressBar *)

(** What the progress bar does to the output area, one event per statement
    of [__call__] that shows something. *)
Inductive ui_event : Type :=
| Printed (text : string)        (* print(text) *)
| BarDisplayed (total : Z)       (* ProgressBar(total=total).display() *)
| ProgressSet (progress : Z)     (* progress_bar.progress = progress *)
| BarUpdated                     (* progress_bar.update() *)
| OutputCleared.                 (* clear_output() *)

(** [IPython.display.ProgressBar]: created with progress 0; always truthy. *)
Record ProgressBar : Type := {
  total : Z;
  progress : Z
}.

Record DownloadProgressBar : Type := {
  progress_bar : option ProgressBar;
  filename : string
}.

(** [DownloadProgressBar.__init__] *)
Definition DownloadProgressBar_init (filename : string) : DownloadProgressBar :=
  {| progress_bar := None; filename := filename |}.

(** [DownloadProgressBar.__call__].  The body runs under
    [try: ... except Exception: pass]: what was shown before an exception
    stays shown.  The only statement that can raise is the assignment to
    [self.progress_bar.progress] while [progress_bar] is still [None]. *)
Definition DownloadProgressBar_call (self : DownloadProgressBar)
    (block_num block_size total_size : Z) (out : list ui_event)
  : DownloadProgressBar * list ui_event :=
  let '(self, out) :=
    match progress_bar self with
    | None =>
        if (block_num =? 0)%Z then
          ({| progress_bar := Some {| total := total_size; progress := 0 |};
              filename := filename self |},
           out ++ [Printed ("Downloading " +:+ filename self +:+ "...");
                   BarDisplayed total_size])
        else (self, out)
    | Some _ => (self, out)
    end in
  let downloaded := block_num * block_size in
  if (downloaded <? total_size)%Z then
    if (block_num mod 20 =? 0)%Z then
      (* Update progress bar after 20 blocks have been received *)
      match progress_bar self with
      | Some bar =>
          ({| progress_bar := Some {| total := total bar; progress := downloaded |};
              filename := filename self |},
           out ++ [ProgressSet downloaded; BarUpdated])
      | None => (self, out)     (* AttributeError on None: swallowed *)
      end
    else (self, out)
  else
    (self, out ++ [OutputCleared; Printed ("Downloaded " +:+ filename self)]).

(** Library model: the calls [urllib.request.urlretrieve] makes to its
    report hook for a resource read in [blocks] blocks: one call with block
    number 0 before anything is read, then one call after each block. *)
Definition report_blocks (hook : DownloadProgressBar) (block_size total_size : Z)
    (blocks : nat) (out : list ui_event) : DownloadProgressBar * list ui_event :=
  foldl (λ '(self, out) (block_num : nat),
           DownloadProgressBar_call self (Z.of_nat block_num) block_size total_size out)
        (hook, out) (seq 0 (S blocks)).

End notebook_utils_files.

(** * Further embedded code: segmentation maps and the overlay *)

Module segmentation_maps.

(** [class Label(NamedTuple)] *)
Record Label : Type := {
  index : Z;
  color : notebook_utils.color;
  name : option string
}.

(** [class SegmentationMap(NamedTuple)] *)
Record SegmentationMap : Type := {
  labels : list Label
}.

Definition get_colormap (self : SegmentationMap) : list notebook_utils.color :=
  map color (labels self).

(** The truth value of a label name: [None] and the empty string are falsy. *)
Definition truthy (labelname : option string) : bool :=
  match labelname with
  | Some s => negb (String.eqb s "")
  | None => false
  end.

Definition get_labels (self : SegmentationMap) : option (list (option string)) :=
  let labelnames := map name (labels self) in
  if existsb truthy labelnames then Some labelnames else None.

Definition cityscape_labels : list Label := [
  {| index := 0; color := (128, 64, 128); name := Some "road" |};
  {| index := 1; color := (244, 35, 232); name := Some "sidewalk" |};
  {| index := 2; color := (70, 70, 70); name := Some "building" |};
  {| index := 3; color := (102, 102, 156); name := Some "wall" |};
  {| index := 4; color := (190, 153, 153); name := Some "fence" |};
  {| index := 5; color := (153, 153, 153); name := Some "pole" |};
  {| index := 6; color := (250, 170, 30); name := Some "traffic light" |};
  {| index := 7; color := (220, 220, 0); name := Some "traffic sign" |};
  {| index := 8; color := (107, 142, 35); name := Some "vegetation" |};
  {| index := 9; color := (152, 251, 152); name := Some "terrain" |};
  {| index := 10; color := (70, 130, 180); name := Some "sky" |};
  {| index := 11; color := (220, 20, 60); name := Some "person" |};
  {| index := 12; color := (255, 0, 0); name := Some "rider" |};
  {| index := 13; color := (0, 0, 142); name := Some "car" |};
  {| index := 14; color := (0, 0, 70); name := Some "truck" |};
  {| index := 15; color := (0, 60, 100); name := Some "bus" |};
  {| index := 16; color := (0, 80, 100); name := Some "train" |};
  {| index := 17; color := (0, 0, 230); name := Some "motorcycle" |};
  {| index := 18; color := (119, 11, 32); name := Some "bicycle" |};
  {| index := 19; color := (255, 255, 255); name := Some "background" |}
].

Definition CityScapesSegmentation : SegmentationMap := {| labels := cityscape_labels |}.

Definition binary_labels : list Label := [
  {| index := 0; color := (255, 255, 255); name := Some "background" |};
  {| index := 1; color := (0, 0, 0); name := Some "foreground" |}
].

Definition BinarySegmentation : SegmentationMap := {| labels := binary_labels |}.

(** ** segmentation_map_to_overlay *)

(** The source image: two-dimensional (gray) or an (H, W, 3) array. *)
Inductive source_image : Type :=
| Gray (h w : nat) (values : list Z)
| Colored (img : image).

(** [np.repeat(np.expand_dims(image, -1), 3, 2)] when [len(image.shape) == 2] *)
Definition three_channels (image : source_image) : notebook_utils.image :=
  match image with
  | Gray h w values =>
      {| height := h; width := w; pixels := map (λ v, (v, v, v)) values |}
  | Colored img => img
  end.

(** [cv2.addWeighted(src1, alpha, src2, beta, 0)] is a parameter, and so are
    the type of the floating-point weights and the subtraction [1 - alpha]. *)
Definition segmentation_map_to_overlay {weight : Type}
    (one_minus : weight → weight)
    (addWeighted : notebook_utils.image → weight → notebook_utils.image → weight
                   → result notebook_utils.image)
    (cv : OpenCV) (image : source_image) (res : ndarray) (alpha : weight)
    (colormap : list notebook_utils.color) (remove_holes : bool)
  : result notebook_utils.image :=
  let image := three_channels image in
  mask ← segmentation_map_to_image cv res colormap remove_holes;
  addWeighted mask alpha image (one_minus alpha).

End segmentation_maps.

(** * Further embedded code: the classes of the quantization notebook *)

Module quantization.

(** The exceptions of this part. *)
Inductive exception : Type :=
| IndexError
| ValueError
| TypeError
| ZeroDivisionError.

Inductive outcome (A : Type) : Type :=
| Returns (a : A)
| Throws (e : exception).
Arguments Returns {A} a.
Arguments Throws {A} e.

#[global] Instance outcome_ret : MRet outcome := λ A a, Returns a.
#[global] Instance outcome_bind : MBind outcome := λ A B k r,
  match r with
  | Returns a => k a
  | Throws e => Throws e
  end.

(** [l[i]] on a Python list: negative indices count from the end. *)
Definition py_getitem {A : Type} (l : list A) (i : Z) : outcome A :=
  let n := Z.of_nat (length l) in
  if decide (0 ≤ i < n) then
    match l !! Z.to_nat i with Some x => Returns x | None => Throws IndexError end
  else if decide (- n ≤ i < 0) then
    match l !! Z.to_nat (n + i) with Some x => Returns x | None => Throws IndexError end
  else Throws IndexError.

(** [l.index(x)]: the first position of [x], ValueError when there is none. *)
Fixpoint list_index (l : list string) (x : string) : outcome nat :=
  match l with
  | [] => Throws ValueError
  | y :: l' =>
      if String.eqb y x then Returns 0%nat
      else k ← list_index l' x; mret (S k)
  end.

(** [p.parent.name]: the last but one part, empty for a path of one part and
    for a file in the root. *)
Definition parent_name (p : path) : string :=
  match reverse p with
  | _ :: parent :: _ => if String.eqb parent "/" then "" else parent
  | _ => ""
  end.

(** ** ClassificationDataLoader *)

Record ClassificationDataLoader : Type := {
  data_source : path;
  dataset : list path;          (* the image files found, in the order of the search *)
  class_names : list string     (* the sorted names of the class directories *)
}.

(** [__len__] *)
Definition len (self : ClassificationDataLoader) : Z := Z.of_nat (length (dataset self)).

(** [_read_image]: [cv2.imread] gives [None] for a file it cannot read, and
    subscripting [None] is a TypeError; the channel swap, the resize, the
    cast and the transposition that follow are the pure [preprocess]. *)
Definition _read_image {A B : Type} (imread : path → option A) (preprocess : A → B)
    (self : ClassificationDataLoader) (index : path) : outcome B :=
  match imread (path_join (data_source self) index) with
  | Some image => Returns (preprocess image)
  | None => Throws TypeError
  end.

(** [__getitem__] *)
Definition getitem {A B : Type} (imread : path → option A) (preprocess : A → B)
    (self : ClassificationDataLoader) (index : Z) : outcome ((Z * nat) * B) :=
  if decide (len self ≤ index) then Throws IndexError else
  filepath ← py_getitem (dataset self) index;
  class_index ← list_index (class_names self) (parent_name filepath);
  let annotation := (index, class_index) in
  image ← _read_image imread preprocess self filepath;
  mret (annotation, image).

(** ** Accuracy *)

(** [np.argmax] of one row of scores: the first position of the greatest
    score; ValueError on an empty row.  Scores are only compared with each
    other, so integers stand for them here. *)
Fixpoint argmax_from (best : Z) (best_at : nat) (at_ : nat) (row : list Z) : nat :=
  match row with
  | [] => best_at
  | x :: row' =>
      if (best <? x)%Z then argmax_from x at_ (S at_) row'
      else argmax_from best best_at (S at_) row'
  end.

Definition argmax (row : list Z) : outcome nat :=
  match row with
  | [] => Throws ValueError
  | x :: row' => Returns (argmax_from x 0 1 row')
  end.

(** [np.argmax(output[0], axis=1)]; an array without rows is taken to have
    columns. *)
Fixpoint argmax_rows (rows : list (list Z)) : outcome (list nat) :=
  match rows with
  | [] => Returns []
  | row :: rows' =>
      k ← argmax row;
      ks ← argmax_rows rows';
      mret (k :: ks)
  end.

(** [predict == target] for a target that has one entry per prediction; a
    target of another length (which NumPy broadcasts, or refuses) is left
    out ([None]). *)
Definition elementwise_equal (predict target : list nat) : option (list bool) :=
  if decide (length predict = length target)
  then Some (zip_with Nat.eqb predict target)
  else None.

Record Accuracy : Type := {
  _name : string;
  _matches : list (list bool)
}.

(** [__init__] *)
Definition Accuracy_init : Accuracy := {| _name := "accuracy"; _matches := [] |}.

(** [value]: the dictionary with the one key [_name]. *)
Definition value (self : Accuracy) : outcome (string * list bool) :=
  match last (_matches self) with
  | Some m => Returns (_name self, m)
  | None => Throws IndexError
  end.

(** [np.count_nonzero(self._matches)], for matches of one common length (the
    list is then one array of booleans). *)
Definition count_nonzero (matches : list (list bool)) : nat :=
  length (filter (λ b, b = true) (mjoin matches)).

(** [avg_value]: the quotient of two Python integers, as an exact rational. *)
Definition avg_value (self : Accuracy) : outcome (string * Q) :=
  let num_correct := count_nonzero (_matches self) in
  match _matches self with
  | [] => Throws ZeroDivisionError
  | _ :: _ =>
      Returns (_name self,
               (inject_Z (Z.of_nat num_correct)
                / inject_Z (Z.of_nat (length (_matches self))))%Q)
  end.

(** [update(output, target)], with [output[0]] given by its rows. *)
Definition update (self : Accuracy) (output0 : list (list Z)) (target : list nat)
  : outcome (option Accuracy) :=
  predict ← argmax_rows output0;
  mret (match_ ← elementwise_equal predict target;
        Some {| _name := _name self; _matches := _matches self ++ [match_] |}).

(** [reset] *)
Definition reset (self : Accuracy) : Accuracy :=
  {| _name := _name self; _matches := [] |}.

End quantization.

(** * Further vocabulary *)

Import notebook_utils_files.

(** What a progress bar shows first: the notice and the empty bar. *)
Definition bar_opening (filename : string) (total_size : Z) : list ui_event :=
  [Printed ("Downloading " +:+ filename +:+ "..."); BarDisplayed total_size].

(** What it shows last. *)
Definition bar_closing (filename : string) : list ui_event :=
  [OutputCleared; Printed ("Downloaded " +:+ filename)].

(** The progress shown while the blocks 0, ..., [n] - 1 are reported: a new
    value at every twentieth block. *)
Definition shown_progress (block_size : Z) (n : nat) : list ui_event :=
  flat_map (λ j : nat,
              if (Z.of_nat j mod 20 =? 0)%Z
              then [ProgressSet (Z.of_nat j * block_size); BarUpdated] else [])
           (seq 0 n).

(** What the hook has shown after the reports for the blocks 0, ..., [n] - 1. *)
Definition reported_blocks (name : string) (block_size total_size : Z)
    (out : list ui_event) (n : nat) : DownloadProgressBar * list ui_event :=
  foldl (λ '(self, out) (block_num : nat),
           DownloadProgressBar_call self (Z.of_nat block_num) block_size total_size out)
        (DownloadProgressBar_init name, out) (seq 0 n).

(** The labels of a map are numbered by their position. *)
Definition well_indexed (m : segmentation_maps.SegmentationMap) : Prop :=
  ∀ (i : nat) (l : segmentation_maps.Label),
    segmentation_maps.labels m !! i = Some l → segmentation_maps.index l = Z.of_nat i.

(** Library model: an idealised [cv2.addWeighted] with exact rational
    weights; every channel is the weighted sum rounded to the nearest integer
    (halves upwards) and saturated to 8 bits.  Images of different sizes are
    refused. *)
Definition blend_channel (alpha beta : Q) (x y : Z) : Z :=
  let q := (alpha * inject_Z x + beta * inject_Z y + (1 # 2))%Q in
  saturate_cast (Qnum q / Z.pos (Qden q)).

Definition blend_pixel (alpha beta : Q) (p q : color) : color :=
  let '(r1, g1, b1) := p in
  let '(r2, g2, b2) := q in
  (blend_channel alpha beta r1 r2, blend_channel alpha beta g1 g2,
   blend_channel alpha beta b1 b2).

Definition ideal_addWeighted (src1 : image) (alpha : Q) (src2 : image) (beta : Q)
  : result image :=
  if decide (height src1 = height src2 ∧ width src1 = width src2
             ∧ length (pixels src1) = length (pixels src2))
  then Ok {| height := height src1; width := width src1;
             pixels := zip_with (blend_pixel alpha beta) (pixels src1) (pixels src2) |}
  else Raise CvError.

(** A gray picture of the size of [ring]. *)
Definition gray_ground : segmentation_maps.source_image :=
  segmentation_maps.Gray 5 5 (replicate 25 100).

(** A loader over three files of two classes, and one file outside any class
    directory. *)
Definition flowers : quantization.ClassificationDataLoader :=
  {| quantization.data_source := ["/"; "data"];
     quantization.dataset := [["/"; "data"; "rose"; "1.jpg"];
                              ["/"; "data"; "daisy"; "7.png"];
                              ["/"; "data"; "rose"; "2.jpg"];
                              ["/"; "data"; "cover.jpg"]];
     quantization.class_names := ["daisy"; "rose"] |}.

(** An image reader that finds every file and returns its path. *)
Definition read_path (p : path) : option path := Some p.

(** [k] is the first position of the greatest element of [row]. *)
Definition first_maximum (row : list Z) (k : nat) : Prop :=
  ∃ mx, row !! k = Some mx
        ∧ (∀ x, x ∈ row → x ≤ mx)
        ∧ (∀ j x, (j < k)%nat → row !! j = Some x → x < mx).

(** A metric after three updates with one prediction each, two of them right. *)
Definition two_of_three : quantization.Accuracy :=
  {| quantization._name := "accuracy";
     quantization._matches := [[true]; [false]; [true]] |}.

(** * Properties *)

(** ** Strings *)

Lemma append_cons (c : ascii) (a b : string) : String c a +:+ b = String c (a +:+ b).
Proof. reflexivity. Qed.

Lemma append_assoc (a b c : string) : (a +:+ b) +:+ c = a +:+ b +:+ c.
Proof.
  induction a as [|ch a IH]; [done |]. rewrite !append_cons. by f_equal.
Qed.

Lemma append_empty_r (s : string) : s +:+ "" = s.
Proof.
  induction s as [|ch s IH]; [done |]. rewrite append_cons. by f_equal.
Qed.

Lemma occurs_in_refl (s : string) : occurs_in s s.
Proof. exists "", "". by rewrite append_empty_r. Qed.

Lemma occurs_in_append_r (x a b : string) : occurs_in x b → occurs_in x (a +:+ b).
Proof.
  intros (pre & post & ->). exists (a +:+ pre), post. by rewrite append_assoc.
Qed.

Lemma occurs_in_append_l (x a b : string) : occurs_in x a → occurs_in x (a +:+ b).
Proof.
  intros (pre & post & ->). exists pre, (post +:+ b). by rewrite !append_assoc.
Qed.

Lemma str_startswith_spec (needle hay : string) :
  str_startswith needle hay = true ↔ ∃ post, hay = needle +:+ post.
Proof.
  revert hay. induction needle as [|a n IH]; intros hay; simpl.
  - split; [intros _; by exists hay | done].
  - destruct hay as [|b h].
    + split; [done | intros [post Hpost]; discriminate].
    + rewrite andb_true_iff, IH, Ascii.eqb_eq. split.
      * intros [-> [post ->]]. by exists post.
      * intros [post Hpost]. rewrite append_cons in Hpost.
        injection Hpost as -> ->. eauto.
Qed.

Lemma str_contains_spec (needle hay : string) :
  str_contains needle hay = true ↔ occurs_in needle hay.
Proof.
  induction hay as [|b h IH].
  - cbn [str_contains]. rewrite orb_false_r, str_startswith_spec. split.
    + intros [post Hpost]. by exists "", post.
    + intros (pre & post & Heq). destruct pre; [by exists post | discriminate].
  - cbn [str_contains]. rewrite orb_true_iff, IH, str_startswith_spec. split.
    + intros [[post Hpost] | (pre & post & ->)].
      * by exists "", post.
      * by exists (String b pre), post.
    + intros (pre & post & Heq). destruct pre as [|c pre].
      * left. by exists post.
      * right. rewrite append_cons in Heq. injection Heq as _ ->. by exists pre, post.
Qed.

Lemma occurs_in_join (sep d : string) (l : list string) :
  d ∈ l → occurs_in d (join sep l).
Proof.
  induction l as [|x l IH]; intros Hin; [by apply elem_of_nil in Hin |].
  apply elem_of_cons in Hin. destruct l as [|y l].
  - destruct Hin as [-> | Hin]; [apply occurs_in_refl | by apply elem_of_nil in Hin].
  - change (join sep (x :: y :: l)) with (x +:+ sep +:+ join sep (y :: l)).
    destruct Hin as [-> | Hin].
    + apply occurs_in_append_l, occurs_in_refl.
    + by apply occurs_in_append_r, occurs_in_append_r, IH.
Qed.

(** ** Files *)

Section download_file.
Variables (url : string) (directory : option string) (show_progress : bool).
Variables (w : world) (r : response).
Hypothesis Hnet : net w !! url = Some r.

Lemma download_file_default_name :
  (length (Path (default_name url r)) ≤ 1)%nat →
  download_file url None directory show_progress w
  = (Ok (resolve w (target_path directory (default_name url r))),
     after_download url directory show_progress r w).
Proof using Hnet.
  intros Hname.
  unfold download_file, rewrap_HTTPError, urlopen.
  unfold mbind, io_bind, mret, io_ret. rewrite Hnet. fold (default_name url r).
  destruct (decide (1 < length (Path (default_name url r)))%nat); [lia |].
  unfold after_download, needs_download, target_path, made_dir.
  destruct directory as [d|]; cbn -[Path path_join].
  all: unfold urlretrieve, resolved, resolve; cbn -[Path path_join].
  all: destruct (files w !! _) as [content|] eqn:Hfile; cbn -[Path path_join].
  all: rewrite ?Hfile; cbn -[Path path_join].
  all: try (destruct (bool_decide (length content = _)); cbn -[Path path_join]).
  all: rewrite ?Hnet; unfold write_file, log; cbn -[Path path_join].
  all: by rewrite <- ?app_assoc.
Qed.

Lemma is_file_name_length (name : string) :
  is_file_name name → (length (Path name) ≤ 1)%nat.
Proof. intros (c & -> & _). simpl. lia. Qed.


End download_file.

(** Whatever the world, a call that passes a file name reads [urlobject]
    before anything was assigned to it. *)
Lemma download_file_named_unbound (url name : string) (directory : option string)
    (show_progress : bool) (w : world) :
  (length (Path name) ≤ 1)%nat →
  download_file url (Some name) directory show_progress w
  = (Raise UnboundLocalError,
     {| net := net w; files := files w; cwd := cwd w;
        trace := trace w ++ made_dir directory |}).
Proof.
  intros Hname. unfold download_file. unfold mbind, io_bind, mret, io_ret.
  destruct (decide (1 < length (Path name))%nat); [lia |].
  destruct directory as [d|], w; cbn -[Path path_join]; by rewrite ?app_nil_r.
Qed.



Example download_file_fresh :
  (download_file xml_url None (Some "model") true fresh_world).1
  = Ok ["/"; "home"; "user"; "model"; "segmentation.xml"].
Proof. reflexivity. Qed.

(** After an interrupted download the file is fetched again, whole. *)
Example download_file_interrupted :
  let '(p, w') := download_file xml_url None (Some "model") true interrupted_world in
  p = Ok ["/"; "home"; "user"; "model"; "segmentation.xml"]
  ∧ files w' !! ["/"; "home"; "user"; "model"; "segmentation.xml"] = Some (body xml_response)
  ∧ trace w' = [Opened xml_url; MadeDir ["model"];
                Retrieved xml_url ["model"; "segmentation.xml"] true].
Proof. vm_compute. done. Qed.

(** C2 at a call that names the file: although model/segmentation.bin is in
    place with the right size, [download_file] raises UnboundLocalError where
    it reads the Content-Length, instead of returning the path. *)
Theorem download_file_with_filename_raises :
  files cached_world !! resolve cached_world (target_path (Some "model") "segmentation.bin")
  = Some (body bin_response)
  ∧ content_length bin_response = Some (length (body bin_response))
  ∧ download_file bin_url (Some "segmentation.bin") (Some "model") true cached_world
    = (Raise UnboundLocalError,
       {| net := net cached_world; files := files cached_world; cwd := cwd cached_world;
          trace := [MadeDir ["model"]] |}).
Proof.
  split_and!; [reflexivity | reflexivity |].
  apply download_file_named_unbound. vm_compute. lia.
Qed.

(** *** download_ir_model *)

Lemma substring_prefix (m : nat) (s : string) :
  (m ≤ String.length s)%nat →
  ∃ rest, s = String.substring 0 m s +:+ rest
          ∧ String.length rest = (String.length s - m)%nat.
Proof.
  revert s. induction m as [|m IH]; intros s Hm.
  - exists s. destruct s; simpl; split; done.
  - destruct s as [|c s]; simpl in Hm; [lia |].
    destruct (IH s) as (rest & Hrest & Hlen); [lia |].
    exists rest. simpl. rewrite append_cons. split; [by f_equal | done].
Qed.

(** [weights_url] replaces the last four characters by ".bin". *)
Lemma weights_url_replaces_suffix (model_xml_url : string) :
  (4 ≤ String.length model_xml_url)%nat →
  ∃ stem suffix,
    model_xml_url = stem +:+ suffix ∧ String.length suffix = 4%nat
    ∧ weights_url model_xml_url = stem +:+ ".bin".
Proof.
  intros Hlen.
  destruct (substring_prefix (String.length model_xml_url - 4) model_xml_url)
    as (suffix & Hsplit & Hsuffix); [lia |].
  exists (drop_last4 model_xml_url), suffix. split_and!; [done | lia | done].
Qed.

Lemma target_path_in_directory (directory : option string) (name : string) :
  is_file_name name →
  ∃ c, target_path directory name = directory_path directory ++ [c].
Proof.
  intros (c & Hc & Hroot). exists c. unfold target_path, directory_path, path_join.
  rewrite Hc. destruct directory as [d|]; [|done].
  simpl. by rewrite (proj2 (String.eqb_neq c "/")).
Qed.

Lemma net_after_download url directory show_progress r w :
  net (after_download url directory show_progress r w) = net w.
Proof. reflexivity. Qed.

Lemma resolve_after_download url directory show_progress r w p :
  resolve (after_download url directory show_progress r w) p = resolve w p.
Proof. reflexivity. Qed.

Section download_ir_model.
Variables (model_xml_url : string) (destination_folder : option string).
Variables (w : world) (r_xml r_bin : response).
Hypothesis Hxml : net w !! model_xml_url = Some r_xml.
Hypothesis Hbin : net w !! weights_url model_xml_url = Some r_bin.
Hypothesis Hxml_name : is_file_name (default_name model_xml_url r_xml).
Hypothesis Hbin_name : is_file_name (default_name (weights_url model_xml_url) r_bin).

End download_ir_model.


(** The cell of the notebook: after the call both files are in ./model. *)
Example download_ir_model_fresh :
  let '(p, w') := download_ir_model xml_url (Some "model") fresh_world in
  p = Ok ["/"; "home"; "user"; "model"; "segmentation.xml"]
  ∧ files w' !! ["/"; "home"; "user"; "model"; "segmentation.xml"] = Some (body xml_response)
  ∧ files w' !! ["/"; "home"; "user"; "model"; "segmentation.bin"] = Some (body bin_response)
  ∧ retrieved_urls (trace w') = [xml_url; bin_url].
Proof. vm_compute. done. Qed.


(** ** Images *)

Section channel_swaps.
Context {A : Type}.
Implicit Types image : list (A * A * A).

Lemma reverse_channels_involutive image :
  map (λ '(x, y, z), (z, y, x)) (map (λ '(x, y, z), (z, y, x)) image) = image.
Proof.
  induction image as [|[[x y] z] image IH]; [done |]. cbn [map]. by rewrite IH.
Qed.

End channel_swaps.

(** The check of the notebook: channel 0 of the BGR array is channel 2 of the
    RGB array, and converting back restores the array. *)
Example to_rgb_test_cell :
  to_rgb [(0, 1, 2); (0, 1, 2)] = [(2, 1, 0); (2, 1, 0)]
  ∧ to_bgr (to_rgb [(0, 1, 2); (0, 1, 2)]) = [(0, 1, 2); (0, 1, 2)].
Proof. split; reflexivity. Qed.

Section reductions.
Implicit Types data : list Z.

Lemma foldr_max_spec x data :
  foldr Z.max x data ∈ x :: data ∧ ∀ y, y ∈ x :: data → y ≤ foldr Z.max x data.
Proof.
  induction data as [|z data [IHin IHub]]; simpl.
  - split; [left | intros y ->%list_elem_of_singleton; lia].
  - split.
    + destruct (Z.max_spec z (foldr Z.max x data)) as [[_ ->] | [_ ->]].
      * apply elem_of_cons in IHin as [-> | Hin]; [left | do 2 right; done].
      * right; left.
    + intros y Hy. assert (y = z ∨ y ∈ x :: data) as [-> | Hy'].
      { apply elem_of_cons in Hy as [-> | Hy]; [right; left |].
        apply elem_of_cons in Hy as [-> | Hy]; [by left | right; by right]. }
      * lia.
      * specialize (IHub y Hy'). lia.
Qed.

Lemma foldr_min_spec x data :
  foldr Z.min x data ∈ x :: data ∧ ∀ y, y ∈ x :: data → foldr Z.min x data ≤ y.
Proof.
  induction data as [|z data [IHin IHlb]]; simpl.
  - split; [left | intros y ->%list_elem_of_singleton; lia].
  - split.
    + destruct (Z.min_spec z (foldr Z.min x data)) as [[_ ->] | [_ ->]].
      * right; left.
      * apply elem_of_cons in IHin as [-> | Hin]; [left | do 2 right; done].
    + intros y Hy. assert (y = z ∨ y ∈ x :: data) as [-> | Hy'].
      { apply elem_of_cons in Hy as [-> | Hy]; [right; left |].
        apply elem_of_cons in Hy as [-> | Hy]; [by left | right; by right]. }
      * lia.
      * specialize (IHlb y Hy'). lia.
Qed.

Lemma amax_spec data mx :
  amax data = Ok mx → mx ∈ data ∧ ∀ y, y ∈ data → y ≤ mx.
Proof.
  destruct data as [|x data]; [done |]. intros [= <-]. apply foldr_max_spec.
Qed.

Lemma amin_spec data mn :
  amin data = Ok mn → mn ∈ data ∧ ∀ y, y ∈ data → mn ≤ y.
Proof.
  destruct data as [|x data]; [done |]. intros [= <-]. apply foldr_min_spec.
Qed.

Lemma max_eq_min_iff data mx mn :
  amax data = Ok mx → amin data = Ok mn →
  mx = mn ↔ ∀ x y, x ∈ data → y ∈ data → x = y.
Proof.
  intros [Hmx Hub]%amax_spec [Hmn Hlb]%amin_spec. split.
  - intros -> x y Hx Hy.
    pose proof (Hub x Hx). pose proof (Hlb x Hx).
    pose proof (Hub y Hy). pose proof (Hlb y Hy). lia.
  - intros Hall. by apply Hall.
Qed.
End reductions.

Lemma pow2_split (w : positive) : 2 ^ Z.pos w = 2 * 2 ^ (Z.pos w - 1).
Proof.
  replace (Z.pos w) with (Z.succ (Z.pos w - 1)) at 1 by lia.
  apply Z.pow_succ_r. lia.
Qed.

Lemma dtype_min_nonpos (t : dtype) : dtype_min t ≤ 0.
Proof.
  destruct t as [w|w]; simpl; [|lia].
  assert (0 < 2 ^ (Z.pos w - 1)) by (apply Z.pow_pos_nonneg; lia). lia.
Qed.

(** Within the range of the element type nothing wraps. *)
Lemma wrap_in_range (t : dtype) (z : Z) :
  dtype_min t ≤ z ≤ dtype_max t → wrap t z = z.
Proof.
  destruct t as [w|w]; simpl; intros Hz.
  - pose proof (pow2_split w). rewrite Z.mod_small; lia.
  - apply Z.mod_small. lia.
Qed.

Lemma Q_ratio_bounds (a d : Z) :
  0 ≤ a ≤ d → 0 < d → (0 <= inject_Z a / inject_Z d)%Q ∧ (inject_Z a / inject_Z d <= 1)%Q.
Proof.
  intros [Ha Had] Hd.
  assert (0 < inject_Z d)%Q as Hd' by (by rewrite (Zlt_Qlt 0 d) in Hd).
  split.
  - apply Qle_shift_div_l; [done |]. rewrite Qmult_0_l. by rewrite (Zle_Qle 0 a) in Ha.
  - apply Qle_shift_div_r; [done |]. rewrite Qmult_1_l. by rewrite Zle_Qle in Had.
Qed.

Section normalize.
Variable t : dtype.
Implicit Types data : list Z.

Lemma normalize_minmax_raises_iff data :
  normalize_minmax t data = Raise ValueError ↔ ∀ x y, x ∈ data → y ∈ data → x = y.
Proof.
  destruct data as [|x0 xs].
  - split; [intros _ x y Hx; by apply elem_of_nil in Hx | done].
  - assert (∃ mx, amax (x0 :: xs) = Ok mx) as [mx Hmx] by (simpl; eauto).
    assert (∃ mn, amin (x0 :: xs) = Ok mn) as [mn Hmn] by (simpl; eauto).
    rewrite <- (max_eq_min_iff _ _ _ Hmx Hmn).
    unfold normalize_minmax. rewrite Hmx, Hmn. cbn.
    destruct (Z.eqb_spec mx mn); split; done.
Qed.

Lemma normalize_minmax_total data :
  normalize_minmax t data = Raise ValueError
  ∨ ∃ normalized, normalize_minmax t data = Ok normalized.
Proof.
  unfold normalize_minmax. destruct data as [|x0 data]; [by left |]. cbn.
  destruct (_ =? _); eauto.
Qed.

Lemma normalize_minmax_no_overflow data mx mn :
  amax data = Ok mx → amin data = Ok mn → mx ≠ mn → mx - mn ≤ dtype_max t →
  normalize_minmax t data
  = Ok (map (λ x, (inject_Z (x - mn) / inject_Z (mx - mn))%Q) data).
Proof.
  intros Hmx Hmn Hne Hfit. unfold normalize_minmax. rewrite Hmx, Hmn. cbn.
  destruct (Z.eqb_spec mx mn) as [|_]; [done |].
  apply amax_spec in Hmx as [Hmx Hub]. apply amin_spec in Hmn as [Hmn Hlb].
  pose proof (dtype_min_nonpos t). pose proof (Hlb mx Hmx).
  f_equal. rewrite map_map. apply map_ext_in. intros x Hx%list_elem_of_In.
  pose proof (Hub x Hx). pose proof (Hlb x Hx).
  rewrite !wrap_in_range; [done | lia | lia].
Qed.

Lemma normalized_unit_range data mx mn :
  amax data = Ok mx → amin data = Ok mn → mx ≠ mn →
  minimum_is 0 (map (λ x, (inject_Z (x - mn) / inject_Z (mx - mn))%Q) data)
  ∧ maximum_is 1 (map (λ x, (inject_Z (x - mn) / inject_Z (mx - mn))%Q) data).
Proof.
  intros [Hmx Hub]%amax_spec [Hmn Hlb]%amin_spec Hne.
  assert (0 < mx - mn) as Hspan by (specialize (Hlb mx Hmx); lia).
  set (normalized := map _ data).
  assert (∀ q, q ∈ normalized → (0 <= q)%Q ∧ (q <= 1)%Q) as Hbounds.
  { intros q (x & -> & Hx)%list_elem_of_fmap.
    pose proof (Hub x Hx). pose proof (Hlb x Hx). apply Q_ratio_bounds; lia. }
  split; split.
  - exists (inject_Z (mn - mn) / inject_Z (mx - mn))%Q. split.
    + apply list_elem_of_fmap. by exists mn.
    + rewrite Z.sub_diag. apply Qmult_0_l.
  - intros q Hq. by apply Hbounds.
  - exists (inject_Z (mx - mn) / inject_Z (mx - mn))%Q. split.
    + apply list_elem_of_fmap. by exists mx.
    + apply Qmult_inv_r. rewrite (inject_Z_injective (mx - mn) 0). lia.
  - intros q Hq. by apply Hbounds.
Qed.

End normalize.

(** Unsigned arrays, such as uint8 images, never overflow: the spread of
    values of the type is a value of the type. *)
Lemma normalize_minmax_unsigned (w : positive) (data : list Z) :
  Forall (λ x, 0 ≤ x ≤ dtype_max (Unsigned w)) data →
  (∀ x y, x ∈ data → y ∈ data → x = y)
  ∨ ∃ normalized,
      normalize_minmax (Unsigned w) data = Ok normalized
      ∧ minimum_is 0 normalized ∧ maximum_is 1 normalized.
Proof.
  intros Hrange. rewrite Forall_forall in Hrange.
  destruct data as [|x0 xs]; [left; intros x y Hx; by apply elem_of_nil in Hx |].
  assert (∃ mx, amax (x0 :: xs) = Ok mx) as [mx Hmx] by (simpl; eauto).
  assert (∃ mn, amin (x0 :: xs) = Ok mn) as [mn Hmn] by (simpl; eauto).
  destruct (decide (mx = mn)) as [Heq | Hne].
  - left. by apply (max_eq_min_iff _ _ _ Hmx Hmn).
  - right. eexists. split.
    + apply (normalize_minmax_no_overflow _ _ mx mn); [done.. |].
      apply amax_spec in Hmx as [Hmx _]. apply amin_spec in Hmn as [Hmn _].
      pose proof (Hrange mx Hmx). pose proof (Hrange mn Hmn). lia.
    + by apply normalized_unit_range.
Qed.

Lemma normalize_minmax_unsigned_witness :
  (∀ x y, x ∈ [3; 0; 10] → y ∈ [3; 0; 10] → x = y)
  ∨ ∃ normalized,
      normalize_minmax (Unsigned 8) [3; 0; 10] = Ok normalized
      ∧ minimum_is 0 normalized ∧ maximum_is 1 normalized.
Proof.
  apply (normalize_minmax_unsigned 8 [3; 0; 10]).
  repeat constructor; cbn; lia.
Defined.



(** ** Visualization *)

(** The loop of the source and the loop as the specification words it. *)
Lemma paint_class_Raise cv res colormap (remove_holes : bool) e (ks : list nat) :
  foldl (paint_class cv res colormap remove_holes) (Raise e) ks = Raise e.
Proof. induction ks as [|k ks IH]; [done |]. exact IH. Qed.

Lemma binary_mask_label_index_map (res : ndarray) (k : nat) :
  binary_mask res k = label_index_map res k.
Proof.
  unfold binary_mask, label_index_map. f_equal. apply map_ext. intros v.
  destruct (Z.eqb_spec v (Z.of_nat k)); by case_decide.
Qed.

Lemma fill_labels_from cv res (remove_holes : bool) (colormap rest : list color) (k : nat) mask :
  drop k colormap = rest →
  fill_labels cv res (if remove_holes then RETR_EXTERNAL else RETR_TREE)
    (zip (seq k (length rest)) rest) mask
  = foldl (paint_class cv res colormap remove_holes) (Ok mask) (seq k (length rest)).
Proof.
  revert k mask. induction rest as [|c rest IH]; intros k mask Hdrop; [done |].
  cbn [length seq zip zip_with fill_labels foldl].
  assert (colormap !! k = Some c) as Hk
    by (by rewrite <- (Nat.add_0_r k), <- lookup_drop, Hdrop).
  assert (lookup_color colormap (Z.of_nat k) = c) as Hc
    by (unfold lookup_color; by rewrite Nat2Z.id, nth_lookup, Hk).
  unfold paint_class at 2. cbn [mbind result_bind].
  rewrite binary_mask_label_index_map, Hc.
  destruct (findContours cv _ _) as [found|].
  - apply IH. rewrite (drop_S _ _ _ Hk) in Hdrop. by injection Hdrop.
  - by rewrite paint_class_Raise.
Qed.

Lemma fill_labels_in_order cv res (remove_holes : bool) (colormap : list color) mask :
  fill_labels cv res (if remove_holes then RETR_EXTERNAL else RETR_TREE)
    (enumerate colormap) mask
  = paint_classes_in_order cv res colormap remove_holes mask.
Proof. by apply fill_labels_from. Qed.

(** On an input of a documented shape that passes the check on the number of
    distinct values, the function is its loop, run on the array squeezed to
    two dimensions and cast to uint8. *)
Lemma segmentation_map_to_image_valid cv res colormap (remove_holes : bool) (h w : nat) :
  (shape res = [h; w] ∧ h ≠ 1%nat) ∨ shape res = [1%nat; h; w] →
  (length (np_unique res) ≤ length colormap)%nat →
  segmentation_map_to_image cv res colormap remove_holes
  = fill_labels cv {| shape := [h; w]; data := map (λ v, v mod 256) (data res) |}
      (if remove_holes then RETR_EXTERNAL else RETR_TREE) (enumerate colormap) (zeros h w).
Proof.
  intros Hshape Hunique. unfold segmentation_map_to_image, shape_at, squeeze0.
  destruct (decide (length colormap < length (np_unique res))%nat); [lia |].
  destruct res as [sh values]. cbn in Hshape |- *.
  destruct Hshape as [[-> Hh] | ->]; cbn.
  - rewrite decide_False by done. done.
  - done.
Qed.

(** C7: on an input of a documented shape that passes the check on the
    number of distinct values, the image returned is the result of one pass
    over the class indices 0, 1, ..., n-1 in increasing order, starting from
    the all-zero image: the pass takes the binary mask of the pixels equal to
    the index, finds its contours (external ones when [remove_holes] is set,
    the full tree otherwise) and fills them with the color of the class. *)
Theorem segmentation_map_to_image_class_loop cv res colormap (remove_holes : bool)
    (h w : nat) :
  (shape res = [h; w] ∧ h ≠ 1%nat) ∨ shape res = [1%nat; h; w] →
  (length (np_unique res) ≤ length colormap)%nat →
  segmentation_map_to_image cv res colormap remove_holes
  = paint_classes_in_order cv
      {| shape := [h; w]; data := map (λ v, v mod 256) (data res) |}
      colormap remove_holes (zeros h w).
Proof.
  intros Hshape Hunique.
  rewrite (segmentation_map_to_image_valid _ _ _ _ h w) by done.
  apply fill_labels_in_order.
Qed.

Lemma segmentation_map_to_image_class_loop_witness :
  segmentation_map_to_image ideal_cv ring three_colors true
  = paint_classes_in_order ideal_cv
      {| shape := [5; 5]%nat; data := map (λ v, v mod 256) (data ring) |}
      three_colors true (zeros 5 5).
Proof.
  apply (segmentation_map_to_image_class_loop ideal_cv ring three_colors true 5 5).
  - left. split; [reflexivity | discriminate].
  - vm_compute. lia.
Defined.

(** With holes removed the hole takes the color of the class around it; with
    the full contour tree it keeps its own. *)
Example ring_remove_holes :
  segmentation_map_to_image ideal_cv ring three_colors true
  = Ok (lookup_table_image 5 5
          [0; 0; 0; 0; 0;
           0; 1; 1; 1; 0;
           0; 1; 1; 1; 0;
           0; 1; 1; 1; 0;
           0; 0; 0; 0; 0] three_colors).
Proof. reflexivity. Qed.

Example ring_keep_holes :
  segmentation_map_to_image ideal_cv ring three_colors false
  = Ok (lookup_table_image 5 5 (data ring) three_colors).
Proof. reflexivity. Qed.

(** *** The lookup-table mapping *)

Lemma saturate_in_gamut (c : color) : in_gamut c → saturate c = c.
Proof.
  destruct c as [[r g] b]. unfold in_gamut, saturate, saturate_cast.
  intros (? & ? & ?). repeat f_equal; lia.
Qed.

Lemma ideal_cv_fills_exactly (h w : nat) : fills_exactly ideal_cv h w.
Proof.
  intros mask_data img c _ _ Hh Hw _. eexists. split; [reflexivity |].
  cbn. rewrite Hh, Hw. f_equal. unfold filled_region. rewrite zip_with_fmap_l.
  apply zip_with_ext; [|done..]. intros v px. by destruct (v =? 0)%Z.
Qed.

Lemma zip_with_twice {A B} (f g : A → B → B) (l : list A) (k : list B) :
  zip_with f l (zip_with g l k) = zip_with (λ x y, f x (g x y)) l k.
Proof. revert k. induction l as [|x l IH]; intros [|y k]; [done.. |]. cbn. by rewrite IH. Qed.

Lemma zip_with_keep {A B} (l : list A) (k : list B) :
  length l = length k → zip_with (λ _ y, y) l k = k.
Proof.
  revert k. induction l as [|x l IH]; intros [|y k] Hlen; try done.
  cbn. f_equal. apply IH. by injection Hlen.
Qed.

Lemma repaint_nil (k : nat) (v : Z) (px : color) : repaint k [] v px = px.
Proof. unfold repaint. by case_decide. Qed.

Lemma repaint_cons (k : nat) (c : color) (rows : list color) (v : Z) (px : color) :
  repaint (S k) rows v (if ((if (v =? Z.of_nat k)%Z then 255 else 0) =? 0)%Z then px else c)
  = repaint k (c :: rows) v px.
Proof.
  unfold repaint. destruct (Z.eqb_spec v (Z.of_nat k)) as [-> | Hne]; cbn.
  - rewrite decide_False, decide_True by lia. by rewrite Nat2Z.id, Nat.sub_diag.
  - destruct (decide (Z.of_nat k ≤ v)).
    + rewrite decide_True by lia.
      by replace (Z.to_nat v - k)%nat with (S (Z.to_nat v - S k)) by lia.
    + by rewrite decide_False by lia.
Qed.

Lemma repaint_lookup_color (colormap : list color) (v : Z) :
  0 ≤ v → repaint 0 colormap v (0, 0, 0) = lookup_color colormap v.
Proof.
  intros Hv. unfold repaint, lookup_color.
  rewrite decide_True, Nat.sub_0_r, nth_lookup by lia. done.
Qed.

Section lookup_table.
Variables (cv : OpenCV) (h w : nat).
Hypothesis Hcv : fills_exactly cv h w.

(** The invariant of the loop: once the rows of the classes from [k] on have
    been processed, a pixel shows the row of its class if its class is one of
    them, and what it showed before otherwise. *)
Lemma fill_labels_repaint (labels : list Z) (rows : list color) :
  length labels = (h * w)%nat →
  Forall in_gamut rows →
  ∀ (k : nat) (pix : list color),
    length pix = (h * w)%nat →
    fill_labels cv {| shape := [h; w]; data := labels |} RETR_TREE
      (zip (seq k (length rows)) rows) {| height := h; width := w; pixels := pix |}
    = Ok {| height := h; width := w; pixels := zip_with (repaint k rows) labels pix |}.
Proof using Hcv.
  intros Hlabels Hrows. induction Hrows as [|c rows Hc _ IH]; intros k pix Hpix.
  - cbn. do 2 f_equal. rewrite <- (zip_with_keep labels pix) at 1 by congruence.
    apply zip_with_ext; [|done..]. intros v px. by rewrite repaint_nil.
  - cbn [length seq zip zip_with fill_labels].
    destruct (Hcv (map (λ v, if (v =? Z.of_nat k)%Z then 255 else 0) labels)
                {| height := h; width := w; pixels := pix |} c)
      as (found & Hfound & Hdraw); cbn [height width pixels].
    { by rewrite length_map. }
    { intros v (v' & -> & _)%list_elem_of_fmap. destruct (v' =? _)%Z; auto. }
    { done. } { done. } { done. }
    unfold label_index_map. cbn [shape data]. rewrite Hfound, Hdraw.
    rewrite IH
      by (rewrite length_zip_with_r_eq; cbn [pixels]; rewrite ?length_map; congruence).
    do 2 f_equal. rewrite zip_with_fmap_l, zip_with_twice.
    apply zip_with_ext; [|done..]. intros v px.
    rewrite (saturate_in_gamut c Hc). apply repaint_cons.
Qed.
End lookup_table.

Lemma distinct_values_bound (labels : list Z) (n : nat) :
  Forall (λ v, 0 ≤ v < Z.of_nat n) labels → (length (remove_dups labels) ≤ n)%nat.
Proof.
  intros Hall. rewrite <- (Nat2Z.id n), <- (length_seqZ 0 (Z.of_nat n)).
  apply submseteq_length, NoDup_submseteq; [apply NoDup_remove_dups |].
  intros v Hv. rewrite elem_of_remove_dups in Hv. apply elem_of_seqZ.
  rewrite Forall_forall in Hall. specialize (Hall v Hv). lia.
Qed.

Lemma lookup_color_in_gamut (colormap : list color) (v : Z) :
  Forall in_gamut colormap → in_gamut (lookup_color colormap v).
Proof.
  intros Hall. unfold lookup_color. rewrite nth_lookup.
  destruct (colormap !! Z.to_nat v) as [c|] eqn:Hc; cbn.
  - by eapply Forall_lookup_1.
  - lia.
Qed.




(** *** Errors *)

Lemma fill_labels_raises cv res mode rows mask e :
  fill_labels cv res mode rows mask = Raise e → e = CvError.
Proof.
  revert mask. induction rows as [|[k c] rows IH]; intros mask; cbn; [done |].
  destruct (findContours cv _ _); [apply IH | congruence].
Qed.

(** The ValueError of the two explicit checks: with a colormap that has a
    row and an array that has a dimension, it is raised exactly when the array
    is neither two-dimensional nor led by a dimension of 1, or has more
    distinct values than the colormap has rows. *)
Lemma segmentation_map_to_image_ValueError_iff cv res colormap (remove_holes : bool) :
  shape res ≠ [] → colormap ≠ [] →
  segmentation_map_to_image cv res colormap remove_holes = Raise ValueError
  ↔ (length (shape res) ≠ 2%nat ∧ shape res !! 0%nat ≠ Some 1%nat)
    ∨ (length colormap < length (np_unique res))%nat.
Proof.
  intros Hshape Hcolormap. unfold segmentation_map_to_image, shape_at, squeeze0.
  destruct res as [sh values]. cbn [shape] in *.
  destruct colormap as [|c0 colormap]; [done |].
  set (big := decide (_ < _)%nat).
  destruct sh as [|s0 sh]; [done |].
  assert (∀ res' mask,
    fill_labels cv res' (if remove_holes then RETR_EXTERNAL else RETR_TREE)
      (enumerate (c0 :: colormap)) mask ≠ Raise ValueError) as Hloop.
  { intros res' mask Hraise%fill_labels_raises. done. }
  destruct (decide (s0 = 1%nat)) as [-> | Hs0];
    destruct sh as [|s1 [|s2 sh]]; cbn -[fill_labels enumerate];
    rewrite ?bool_decide_eq_true_2, ?decide_False by done; cbn -[fill_labels enumerate];
    destruct big; cbn -[fill_labels enumerate].
  all: split;
    [ intros Hraise;
      first [ by right | discriminate Hraise | by apply Hloop in Hraise
            | left; split; [cbn; lia | congruence] ]
    | intros [[Hdim Hlead] | Hbig]; first [ done | lia | congruence ] ].
Qed.

Lemma segmentation_map_to_image_ValueError_iff_witness :
  segmentation_map_to_image ideal_cv three_planes three_colors false
  = Raise ValueError
  ↔ (length (shape three_planes) ≠ 2%nat ∧ shape three_planes !! 0%nat ≠ Some 1%nat)
    ∨ (length three_colors < length (np_unique three_planes))%nat.
Proof.
  apply (segmentation_map_to_image_ValueError_iff ideal_cv three_planes three_colors false).
  - discriminate.
  - discriminate.
Defined.

(** Every array of shape (1, W) that passes the check on the number of
    distinct values is squeezed to one dimension, and the read of
    [result.shape[1]] fails. *)
Lemma segmentation_map_to_image_one_row cv (w : nat) values colormap (remove_holes : bool) :
  (length (remove_dups values) ≤ length colormap)%nat →
  segmentation_map_to_image cv {| shape := [1; w]%nat; data := values |} colormap remove_holes
  = Raise IndexError.
Proof.
  intros Hunique. unfold segmentation_map_to_image, np_unique. cbn.
  by rewrite decide_False by lia.
Qed.

(** C8 at a two-dimensional array of one row: the array passes both checks,
    is squeezed to one dimension because its first dimension is 1, and the
    read of [result.shape[1]] raises IndexError instead of an image being
    returned. *)
Theorem segmentation_map_to_image_one_row_raises (cv : OpenCV) :
  length (shape one_row) = 2%nat
  ∧ (length (np_unique one_row) ≤ length [(0, 0, 0)])%nat
  ∧ segmentation_map_to_image cv one_row [(0, 0, 0)] false = Raise IndexError.
Proof.
  split_and!; [reflexivity | vm_compute; lia |].
  apply segmentation_map_to_image_one_row. vm_compute. lia.
Qed.



(** ** Checks and alerts *)

Section checks.
Variable rt : runtime.

Lemma device_listed_spec (device : string) :
  existsb (String.eqb device) (available_devices rt) = true
  ↔ device ∈ available_devices rt.
Proof.
  rewrite existsb_exists. split.
  - intros (d & Hin & Heq). apply String.eqb_eq in Heq as ->. by apply list_elem_of_In.
  - intros Hin. exists device. split; [by apply list_elem_of_In | apply String.eqb_refl].
Qed.

Lemma DeviceNotFound_message_names_device (device : string) :
  occurs_in device (DeviceNotFound_message rt device).
Proof.
  unfold DeviceNotFound_message.
  destruct (available_devices rt) as [|d [|d' l]];
    rewrite !append_assoc;
    apply (occurs_in_append_r _ "Running this cell requires a "), occurs_in_append_l,
      occurs_in_refl.
Qed.

Lemma DeviceNotFound_message_lists_devices (device d : string) :
  d ∈ available_devices rt → occurs_in d (DeviceNotFound_message rt device).
Proof.
  intros Hin. unfold DeviceNotFound_message.
  destruct (available_devices rt) as [|d0 [|d1 l]] eqn:Hdev.
  - by apply elem_of_nil in Hin.
  - apply list_elem_of_singleton in Hin as ->.
    do 2 apply occurs_in_append_r. apply occurs_in_refl.
  - do 2 apply occurs_in_append_r. by apply occurs_in_join.
Qed.

(** C5: [check_device] answers True exactly when the device is among the
    available devices, and then shows nothing; when it answers False it has
    constructed the DeviceNotFoundAlert, which shows one warning alert whose
    message names the requested device and every available device. *)
Theorem check_device_spec (device : string) (out : output) :
  ((check_device rt device out).1 = true ↔ device ∈ available_devices rt)
  ∧ ((check_device rt device out).1 = true → (check_device rt device out).2 = out)
  ∧ ((check_device rt device out).1 = false →
       (check_device rt device out).2 = DeviceNotFoundAlert rt device out
       ∧ ∃ message,
           DeviceNotFoundAlert rt device out = out ++ [alert_html "warning" message]
           ∧ occurs_in device message
           ∧ ∀ d, d ∈ available_devices rt → occurs_in d message).
Proof.
  unfold check_device. rewrite <- device_listed_spec.
  destruct (existsb _ _); simpl; split_and!; try done.
  intros _. split; [done |]. exists (DeviceNotFound_message rt device). split_and!.
  - done.
  - apply DeviceNotFound_message_names_device.
  - apply DeviceNotFound_message_lists_devices.
Qed.

(** C6: [check_openvino_version] answers True exactly when the requested
    version occurs as a substring of the installed version string, and then
    shows nothing; otherwise it shows one alert of class danger and answers
    False. *)
Theorem check_openvino_version_spec (version : string) (out : output) :
  ((check_openvino_version rt version out).1 = true ↔ occurs_in version (get_version rt))
  ∧ ((check_openvino_version rt version out).1 = true →
       (check_openvino_version rt version out).2 = out)
  ∧ ((check_openvino_version rt version out).1 = false →
       check_openvino_version rt version out
       = (false, out ++ [alert_html "danger" (version_message version (get_version rt))])).
Proof.
  unfold check_openvino_version. cbv zeta. rewrite <- str_contains_spec.
  destruct (str_contains _ _); simpl; split_and!; done.
Qed.
End checks.

Example check_device_CPU :
  check_device {| available_devices := ["CPU"; "GNA"]; get_version := "2021.4.0" |} "CPU" []
  = (true, []).
Proof. reflexivity. Qed.

Example check_device_HELLOWORLD :
  check_device {| available_devices := ["CPU"]; get_version := "2021.4.0" |} "HELLOWORLD" []
  = (false,
     [alert_html "warning"
        ("Running this cell requires a HELLOWORLD device, which is not available on this "
         +:+ "system. The following device is available: CPU")]).
Proof. reflexivity. Qed.

Example check_openvino_version_2021_4 :
  (check_openvino_version
     {| available_devices := ["CPU"]; get_version := "2021.4.0-3839-cd81789d294" |}
     "2021.4" []).1 = true.
Proof. reflexivity. Qed.

Example check_openvino_version_2022_1 :
  (check_openvino_version
     {| available_devices := ["CPU"]; get_version := "2021.4.0-3839-cd81789d294" |}
     "2022.1" []).1 = false.
Proof. reflexivity. Qed.

(** * Further properties of the embedded helpers *)

(** ** Files: errors and effects of download_file *)

(** When the URL does not answer, the call that computes the file name ends
    in the plain exception of [download_file]; nothing was created. *)
Lemma download_file_http_error (url : string) (directory : option string)
    (show_progress : bool) (w : world) :
  net w !! url = None →
  download_file url None directory show_progress w
  = (Raise DownloadFailed, log (Opened url) w).
Proof.
  intros Hnet. unfold download_file, rewrap_HTTPError, urlopen.
  unfold mbind, io_bind, mret, io_ret. by rewrite Hnet.
Qed.

Lemma download_file_http_error_witness :
  download_file "https://host/missing.bin" None (Some "model") true fresh_world
  = (Raise DownloadFailed, log (Opened "https://host/missing.bin") fresh_world).
Proof.
  apply (download_file_http_error "https://host/missing.bin" (Some "model") true fresh_world).
  reflexivity.
Defined.

(** A file name that contains a directory is refused before anything else
    happens: no request, no directory, no file. *)
Lemma download_file_rejects_path_as_filename (url name : string)
    (directory : option string) (show_progress : bool) (w : world) :
  (1 < length (Path name))%nat →
  download_file url (Some name) directory show_progress w = (Raise ValueError, w).
Proof.
  intros Hname. unfold download_file. unfold mbind, io_bind, mret, io_ret.
  by rewrite decide_True.
Qed.

Lemma download_file_rejects_path_as_filename_witness :
  download_file xml_url (Some "model/segmentation.xml") None true fresh_world
  = (Raise ValueError, fresh_world).
Proof.
  apply (download_file_rejects_path_as_filename xml_url "model/segmentation.xml" None true
           fresh_world).
  vm_compute. lia.
Defined.

(** The same check applies to the name taken from the response: a
    Content-Disposition file name with a directory in it is refused after the
    headers were read. *)
Lemma download_file_rejects_path_in_header (url : string) (directory : option string)
    (show_progress : bool) (w : world) (r : response) :
  net w !! url = Some r →
  (1 < length (Path (default_name url r)))%nat →
  download_file url None directory show_progress w
  = (Raise ValueError, log (Opened url) w).
Proof.
  intros Hnet Hname. unfold download_file, rewrap_HTTPError, urlopen.
  unfold mbind, io_bind, mret, io_ret. rewrite Hnet. fold (default_name url r).
  by rewrite decide_True.
Qed.

Lemma download_file_rejects_path_in_header_witness :
  download_file "https://host/get?id=7" None None true header_world
  = (Raise ValueError, log (Opened "https://host/get?id=7") header_world).
Proof.
  apply (download_file_rejects_path_in_header "https://host/get?id=7" None true header_world
           {| get_filename := Some "weights/model.bin"; content_length := None;
              body := [Byte.x00] |}).
  - reflexivity.
  - vm_compute. lia.
Defined.




Section download_twice.
Variables (url : string) (directory : option string) (w : world) (r : response).
Hypothesis Hnet : net w !! url = Some r.
Hypothesis Hname : is_file_name (default_name url r).

Lemma needs_download_after_download (show_progress : bool) :
  content_length r = Some (length (body r)) →
  needs_download (after_download url directory show_progress r w)
    (target_path directory (default_name url r)) r = false.
Proof using Type.
  intros Hlen. unfold needs_download at 1. cbn [files after_download].
  rewrite resolve_after_download.
  destruct (needs_download w _ r) eqn:Hneeds.
  - rewrite lookup_insert_eq, Hlen. cbn. by rewrite bool_decide_eq_true_2.
  - unfold needs_download in Hneeds.
    destruct (files w !! _) as [content|]; [|done].
    by apply negb_false_iff in Hneeds as ->.
Qed.

End download_twice.




(** ** Files: download_ir_model *)

Lemma drop_last4_append (stem suffix : string) :
  String.length suffix = 4%nat → drop_last4 (stem +:+ suffix) = stem.
Proof.
  intros Hsuffix. unfold drop_last4.
  induction stem as [|c stem IH].
  - change ("" +:+ suffix) with suffix. rewrite Hsuffix. by destruct suffix.
  - rewrite append_cons. cbn [String.length].
    assert (4 ≤ String.length (stem +:+ suffix))%nat as Hlen.
    { clear IH. induction stem as [|c' stem IH];
        [change ("" +:+ suffix) with suffix; lia |].
      rewrite append_cons. cbn [String.length]. lia. }
    replace (S (String.length (stem +:+ suffix)) - 4)%nat
      with (S (String.length (stem +:+ suffix) - 4)) by lia.
    cbn [String.substring]. by rewrite IH.
Qed.

Lemma drop_last4_short (s : string) :
  (String.length s ≤ 4)%nat → drop_last4 s = "".
Proof.
  intros Hs. unfold drop_last4.
  replace (String.length s - 4)%nat with 0%nat by lia. by destruct s.
Qed.

(** The URL of the weights is the xml URL with its last four characters
    replaced by ".bin", whatever these characters are; a URL of at most four
    characters gives ".bin". *)
Theorem weights_url_spec (model_xml_url : string) :
  (∀ stem suffix,
     model_xml_url = stem +:+ suffix → String.length suffix = 4%nat →
     weights_url model_xml_url = stem +:+ ".bin")
  ∧ ((String.length model_xml_url ≤ 4)%nat → weights_url model_xml_url = ".bin").
Proof.
  unfold weights_url. split.
  - intros stem suffix -> Hsuffix. by rewrite drop_last4_append.
  - intros Hshort. by rewrite drop_last4_short.
Qed.



(** ** Files: load_image *)

(** [load_image] does not store anything: whatever the path and the outcome,
    the files, the network and the working directory are as before.  A local
    path does not even touch the network. *)
Theorem load_image_stores_nothing {A : Type} (cv : ImageCodecs A) (path : string)
    (w : world) :
  files (load_image cv path w).2 = files w
  ∧ net (load_image cv path w).2 = net w
  ∧ cwd (load_image cv path w).2 = cwd w
  ∧ (str_startswith "http" path = false → (load_image cv path w).2 = w).
Proof.
  unfold load_image, imread, urlopen. unfold mbind, io_bind.
  destruct (str_startswith "http" path); [|done].
  destruct (net w !! path) as [r|]; [destruct (imdecode cv (body r)) |]; done.
Qed.


(** ** Files: DownloadProgressBar *)

Lemma join_replicate_S {A : Type} (n : nat) (l : list A) :
  mjoin (replicate (S n) l) = mjoin (replicate n l) ++ l.
Proof.
  induction n as [|n IH]; [cbn; by rewrite app_nil_r |].
  change (mjoin (replicate (S (S n)) l)) with (l ++ mjoin (replicate (S n) l)).
  rewrite IH at 1. change (mjoin (replicate (S n) l)) with (l ++ mjoin (replicate n l)).
  by rewrite app_assoc.
Qed.

Section progress_bar.
Variables (name : string) (block_size total_size : Z) (out : list ui_event).

Local Abbreviation reported := (reported_blocks name block_size total_size out).

Lemma reported_S (n : nat) :
  reported (S n)
  = DownloadProgressBar_call (reported n).1 (Z.of_nat n) block_size total_size (reported n).2.
Proof.
  unfold reported_blocks. rewrite seq_S, foldl_app. cbn [foldl]. by destruct (foldl _ _ _).
Qed.

Lemma shown_progress_S (n : nat) :
  shown_progress block_size (S n)
  = shown_progress block_size n
    ++ (if (Z.of_nat n mod 20 =? 0)%Z
        then [ProgressSet (Z.of_nat n * block_size); BarUpdated] else []).
Proof.
  unfold shown_progress. rewrite seq_S, flat_map_app. cbn [flat_map].
  by rewrite Nat.add_0_l, app_nil_r.
Qed.

(** While the blocks reported so far do not reach the total size, the bar is
    there and what was shown is the opening followed by the progress. *)
Lemma reported_before_end (n : nat) :
  0 < block_size → 0 < total_size →
  (Z.of_nat n) * block_size < total_size →
  ∃ bar,
    reported (S n)
    = ({| progress_bar := Some bar; filename := name |},
       out ++ bar_opening name total_size ++ shown_progress block_size (S n)).
Proof.
  intros Hbs Hsize. induction n as [|n IH]; intros Hn.
  - unfold reported_blocks, DownloadProgressBar_call, shown_progress. cbn.
    change (Z.of_nat 0) with 0. rewrite !Z.mul_0_l. change (0 mod 20 =? 0)%Z with true. cbn.
    destruct (Z.ltb_spec 0 total_size); [|lia]. eexists. by rewrite <- app_assoc.
  - destruct IH as [bar IH]; [lia |].
    rewrite reported_S, IH. cbn [fst snd].
    unfold DownloadProgressBar_call. cbn [progress_bar filename].
    destruct (Z.ltb_spec (Z.of_nat (S n) * block_size) total_size); [|lia].
    rewrite (shown_progress_S (S n)).
    destruct (_ =? 0)%Z; eexists; by rewrite <- ?app_assoc, ?app_nil_r.
Qed.

(** A download of known size, reported block by block as [urlretrieve] does:
    the bar opens once, shows a new progress value at every twentieth block
    (the value being the number of bytes in the blocks before it), and closes
    once, when the blocks reported reach the total size. *)
Theorem DownloadProgressBar_known_size (blocks : nat) :
  0 < block_size → 0 < total_size →
  (Z.of_nat blocks - 1) * block_size < total_size ≤ Z.of_nat blocks * block_size →
  (report_blocks (DownloadProgressBar_init name) block_size total_size blocks out).2
  = out ++ bar_opening name total_size ++ shown_progress block_size blocks
        ++ bar_closing name.
Proof.
  intros Hbs Hsize [Hbefore Hreached].
  change (report_blocks _ _ _ blocks out) with (reported (S blocks)).
  destruct blocks as [|n]; [cbn in Hreached; lia |].
  destruct (reported_before_end n) as [bar Hbar]; [done | done | lia |].
  rewrite reported_S, Hbar. cbn [fst snd].
  unfold DownloadProgressBar_call. cbn [progress_bar filename].
  destruct (Z.ltb_spec (Z.of_nat (S n) * block_size) total_size); [lia |].
  cbn [snd]. unfold bar_closing. by rewrite <- !app_assoc.
Qed.

(** Without a Content-Length [urlretrieve] reports the size -1: then every
    report, from the first on, clears the output and prints the closing
    notice, and the bar never shows progress. *)
Theorem DownloadProgressBar_unknown_size (blocks : nat) :
  0 ≤ block_size → total_size ≤ 0 →
  (report_blocks (DownloadProgressBar_init name) block_size total_size blocks out).2
  = out ++ bar_opening name total_size
        ++ mjoin (replicate (S blocks) (bar_closing name)).
Proof.
  intros Hbs Hsize.
  change (report_blocks _ _ _ blocks out) with (reported (S blocks)).
  assert (∃ bar, reported (S blocks)
                 = ({| progress_bar := Some bar; filename := name |},
                    out ++ bar_opening name total_size
                        ++ mjoin (replicate (S blocks) (bar_closing name))))
    as [bar ->]; [|done].
  induction blocks as [|n [bar IH]].
  - unfold reported_blocks, DownloadProgressBar_call. cbn.
    change (Z.of_nat 0) with 0. rewrite !Z.mul_0_l. cbn.
    destruct (Z.ltb_spec 0 total_size); [lia |]. eexists. by rewrite <- app_assoc.
  - rewrite reported_S, IH. cbn [fst snd].
    unfold DownloadProgressBar_call. cbn [progress_bar filename].
    destruct (Z.ltb_spec (Z.of_nat (S n) * block_size) total_size); [lia |].
    eexists. f_equal. rewrite (join_replicate_S (S n)). by rewrite <- !app_assoc.
Qed.
End progress_bar.

Lemma DownloadProgressBar_known_size_witness :
  (report_blocks (DownloadProgressBar_init "model.bin") 1024 25000 25 []).2
  = [] ++ bar_opening "model.bin" 25000 ++ shown_progress 1024 25 ++ bar_closing "model.bin".
Proof.
  apply (DownloadProgressBar_known_size "model.bin" 1024 25000 [] 25); lia.
Defined.

Example DownloadProgressBar_25_blocks :
  (report_blocks (DownloadProgressBar_init "model.bin") 1024 25000 25 []).2
  = [Printed "Downloading model.bin..."; BarDisplayed 25000;
     ProgressSet 0; BarUpdated; ProgressSet 20480; BarUpdated;
     OutputCleared; Printed "Downloaded model.bin"].
Proof. reflexivity. Qed.

Lemma DownloadProgressBar_unknown_size_witness :
  (report_blocks (DownloadProgressBar_init "model.bin") 8192 (-1) 2 []).2
  = [] ++ bar_opening "model.bin" (-1) ++ mjoin (replicate 3 (bar_closing "model.bin")).
Proof.
  apply (DownloadProgressBar_unknown_size "model.bin" 8192 (-1) [] 2); lia.
Defined.

(** ** Visualization: segmentation maps *)

(** [get_labels] answers [None] exactly when no label has a name (a missing
    or an empty name); otherwise it answers the names of all labels, in the
    order of the labels, the missing ones included. *)
Theorem get_labels_spec (m : segmentation_maps.SegmentationMap) :
  (segmentation_maps.get_labels m = None
   ↔ ∀ l, l ∈ segmentation_maps.labels m →
          segmentation_maps.name l = None ∨ segmentation_maps.name l = Some "")
  ∧ (segmentation_maps.get_labels m ≠ None →
     segmentation_maps.get_labels m
     = Some (map segmentation_maps.name (segmentation_maps.labels m))).
Proof.
  unfold segmentation_maps.get_labels.
  destruct (existsb _ _) eqn:Hany; split; try done.
  - split; [done |]. intros Hall. apply existsb_exists in Hany as (n & Hin & Hn).
    apply list_elem_of_In, list_elem_of_fmap in Hin as (l & -> & Hl).
    destruct (Hall l Hl) as [Hname | Hname]; by rewrite Hname in Hn.
  - split; [|done]. intros _ l Hl.
    destruct (segmentation_maps.name l) as [s|] eqn:Hname; [|by left]. right.
    destruct (String.eqb_spec s "") as [-> | Hs]; [done |]. exfalso.
    assert (existsb segmentation_maps.truthy
              (map segmentation_maps.name (segmentation_maps.labels m)) = true) as Htrue;
      [|by rewrite Htrue in Hany].
    apply existsb_exists. exists (Some s). split.
    + apply list_elem_of_In, list_elem_of_fmap. by exists l.
    + cbn. by apply negb_true_iff, String.eqb_neq.
Qed.

(** In a map whose labels are numbered by their position, the row of the
    colormap that a class index selects is the color of the label with that
    index. *)
Theorem colormap_row_of_label (m : segmentation_maps.SegmentationMap)
    (l : segmentation_maps.Label) :
  well_indexed m →
  l ∈ segmentation_maps.labels m →
  lookup_color (segmentation_maps.get_colormap m) (segmentation_maps.index l)
  = segmentation_maps.color l.
Proof.
  intros Hm (i & Hi)%list_elem_of_lookup.
  rewrite (Hm i l Hi). unfold lookup_color, segmentation_maps.get_colormap.
  rewrite Nat2Z.id, nth_lookup.
  change (map segmentation_maps.color (segmentation_maps.labels m))
    with (segmentation_maps.color <$> segmentation_maps.labels m).
  by rewrite list_lookup_fmap, Hi.
Qed.

Lemma cityscape_well_indexed : well_indexed segmentation_maps.CityScapesSegmentation.
Proof.
  intros i l Hi. cbn in Hi.
  do 20 (destruct i as [|i]; [by injection Hi as <- |]). done.
Qed.

Lemma binary_well_indexed : well_indexed segmentation_maps.BinarySegmentation.
Proof.
  intros i l Hi. cbn in Hi.
  do 2 (destruct i as [|i]; [by injection Hi as <- |]). done.
Qed.

Lemma colormap_row_of_label_witness :
  lookup_color (segmentation_maps.get_colormap segmentation_maps.CityScapesSegmentation)
    (segmentation_maps.index
       {| segmentation_maps.index := 13; segmentation_maps.color := (0, 0, 142);
          segmentation_maps.name := Some "car" |})
  = segmentation_maps.color
      {| segmentation_maps.index := 13; segmentation_maps.color := (0, 0, 142);
         segmentation_maps.name := Some "car" |}.
Proof.
  apply (colormap_row_of_label segmentation_maps.CityScapesSegmentation).
  - apply cityscape_well_indexed.
  - cbn. do 13 right. left.
Defined.

(** The predefined maps are numbered by position and hold 8-bit colors. *)
Lemma predefined_maps_sound :
  well_indexed segmentation_maps.CityScapesSegmentation
  ∧ well_indexed segmentation_maps.BinarySegmentation
  ∧ Forall in_gamut (segmentation_maps.get_colormap segmentation_maps.CityScapesSegmentation)
  ∧ Forall in_gamut (segmentation_maps.get_colormap segmentation_maps.BinarySegmentation).
Proof.
  split_and!; [apply cityscape_well_indexed | apply binary_well_indexed | |];
    repeat constructor; cbn; lia.
Qed.

(** ** Visualization: segmentation_map_to_overlay *)

Lemma lookup_table_when_fill_exact (cv : OpenCV) (h w : nat) (res : ndarray)
    (colormap : list color) :
  fills_exactly cv h w →
  (shape res = [h; w] ∧ h ≠ 1%nat) ∨ shape res = [1%nat; h; w] →
  length (data res) = (h * w)%nat →
  Forall (λ v, 0 ≤ v < Z.of_nat (length colormap) ∧ v < 256) (data res) →
  Forall in_gamut colormap →
  segmentation_map_to_image cv res colormap false
  = Ok (lookup_table_image h w (data res) colormap).
Proof.
  intros Hcv Hshape Hlen Hlabels Hcolors. rewrite Forall_forall in Hlabels.
  rewrite (segmentation_map_to_image_valid _ _ _ _ h w); [|done|].
  2:{ apply distinct_values_bound, Forall_forall. intros v Hv.
      specialize (Hlabels v Hv). lia. }
  replace (map (λ v, v mod 256) (data res)) with (data res).
  2:{ rewrite <- (map_id (data res)) at 1. apply map_ext_in.
      intros v Hv%list_elem_of_In. specialize (Hlabels v Hv).
      symmetry. apply Z.mod_small. lia. }
  unfold enumerate, zeros.
  rewrite (fill_labels_repaint cv h w Hcv) by (by rewrite ?length_replicate).
  unfold lookup_table_image. do 2 f_equal.
  rewrite zip_with_replicate_r_eq by done.
  apply map_ext_in. intros v Hv%list_elem_of_In.
  specialize (Hlabels v Hv). apply repaint_lookup_color. lia.
Qed.



(** Class 0 (color 10) over gray 100 at alpha 0.6 gives 46, class 1
    (color 20) gives 52. *)
Example overlay_on_gray :
  segmentation_maps.segmentation_map_to_overlay (λ a, 1 - a)%Q ideal_addWeighted ideal_cv
    gray_ground ring (3 # 5) three_colors false
  = Ok (lookup_table_image 5 5 (data ring) [(46, 46, 46); (52, 52, 52)]).
Proof. vm_compute. reflexivity. Qed.

(** ** The quantization notebook: ClassificationDataLoader *)

Lemma py_getitem_in_range {A : Type} (l : list A) (i : Z) :
  - Z.of_nat (length l) ≤ i < Z.of_nat (length l) →
  ∃ x, quantization.py_getitem l i = quantization.Returns x
       ∧ l !! Z.to_nat (i mod Z.of_nat (length l)) = Some x.
Proof.
  intros Hi. unfold quantization.py_getitem. cbv zeta.
  destruct (decide (0 ≤ i < Z.of_nat (length l))) as [Hpos | Hneg].
  - rewrite Z.mod_small by done.
    destruct (lookup_lt_is_Some_2 l (Z.to_nat i)) as [x Hx]; [lia |].
    exists x. by rewrite Hx.
  - rewrite decide_True by lia.
    replace (i mod Z.of_nat (length l)) with (Z.of_nat (length l) + i).
    2:{ apply (Z.mod_unique _ _ (-1)); lia. }
    destruct (lookup_lt_is_Some_2 l (Z.to_nat (Z.of_nat (length l) + i))) as [x Hx]; [lia |].
    exists x. by rewrite Hx.
Qed.

Lemma py_getitem_out_of_range {A : Type} (l : list A) (i : Z) :
  ¬ (- Z.of_nat (length l) ≤ i < Z.of_nat (length l)) →
  quantization.py_getitem l i = quantization.Throws quantization.IndexError.
Proof.
  intros Hi. unfold quantization.py_getitem. cbv zeta.
  rewrite !decide_False by lia. done.
Qed.

Lemma list_index_throws (l : list string) (x : string) (e : quantization.exception) :
  quantization.list_index l x = quantization.Throws e → e = quantization.ValueError.
Proof.
  induction l as [|y l IH]; cbn; [congruence |].
  destruct (String.eqb y x); [done |].
  destruct (quantization.list_index l x) as [k|e']; cbn; [done |].
  intros [= <-]. by apply IH.
Qed.

Lemma list_index_first (l : list string) (x : string) (k : nat) :
  l !! k = Some x → (∀ j, (j < k)%nat → l !! j ≠ Some x) →
  quantization.list_index l x = quantization.Returns k.
Proof.
  revert k. induction l as [|y l IH]; intros k Hk Hfirst; [done |]. cbn.
  destruct (String.eqb_spec y x) as [-> | Hne].
  - destruct k as [|k]; [done |]. by destruct (Hfirst 0%nat ltac:(lia)).
  - destruct k as [|k]; [cbn in Hk; congruence |].
    rewrite (IH k); [done | done |].
    intros j Hj. apply (Hfirst (S j)). lia.
Qed.

Lemma list_index_absent (l : list string) (x : string) :
  x ∉ l → quantization.list_index l x = quantization.Throws quantization.ValueError.
Proof.
  induction l as [|y l IH]; intros Hx; [done |]. cbn.
  apply not_elem_of_cons in Hx as [Hne Hx].
  rewrite (proj2 (String.eqb_neq y x)) by done. by rewrite IH.
Qed.

Section getitem.
Context {A B : Type}.
Variables (imread : path → option A) (preprocess : A → B).
Variable self : quantization.ClassificationDataLoader.

(** [__getitem__] raises IndexError exactly for an index that is at least the
    length of the dataset or below minus the length; the negative indices in
    between are served, as by a Python list. *)
Theorem getitem_IndexError_iff (index : Z) :
  quantization.getitem imread preprocess self index
  = quantization.Throws quantization.IndexError
  ↔ quantization.len self ≤ index ∨ index < - quantization.len self.
Proof.
  unfold quantization.getitem, quantization.len.
  destruct (decide (Z.of_nat (length (quantization.dataset self)) ≤ index)) as [Hbig | Hsmall].
  { split; [by left | done]. }
  destruct (decide (index < - Z.of_nat (length (quantization.dataset self)))) as [Hlow | Hin].
  { rewrite py_getitem_out_of_range by lia. split; [by right | done]. }
  destruct (py_getitem_in_range (quantization.dataset self) index) as (p & -> & _); [lia |].
  cbn. split; [|lia]. intros Hraise. exfalso.
  destruct (quantization.list_index _ _) as [k|e] eqn:Hclass; cbn in Hraise.
  - unfold quantization._read_image in Hraise.
    by destruct (imread _).
  - injection Hraise as ->. by apply list_index_throws in Hclass.
Qed.

(** For every index the list accepts, negative ones included, the item is
    the annotation (index as given, position of the file's directory among
    the class names) with the preprocessed image of the file at that index. *)
Theorem getitem_in_range (index : Z) (filepath : path) (class_index : nat) (image : A) :
  - quantization.len self ≤ index < quantization.len self →
  quantization.dataset self !! Z.to_nat (index mod quantization.len self) = Some filepath →
  quantization.class_names self !! class_index = Some (quantization.parent_name filepath) →
  (∀ j, (j < class_index)%nat →
        quantization.class_names self !! j ≠ Some (quantization.parent_name filepath)) →
  imread (path_join (quantization.data_source self) filepath) = Some image →
  quantization.getitem imread preprocess self index
  = quantization.Returns ((index, class_index), preprocess image).
Proof.
  unfold quantization.len. intros Hindex Hfile Hclass Hfirst Himage.
  unfold quantization.getitem, quantization.len.
  rewrite decide_False by lia.
  destruct (py_getitem_in_range (quantization.dataset self) index) as (p & -> & Hp); [lia |].
  rewrite Hfile in Hp. injection Hp as <-. cbn.
  rewrite (list_index_first _ _ class_index) by done. cbn.
  unfold quantization._read_image. by rewrite Himage.
Qed.

(** A file that does not lie in one of the class directories makes
    [__getitem__] raise ValueError, before the image is read. *)
Theorem getitem_unknown_class (index : Z) (filepath : path) :
  - quantization.len self ≤ index < quantization.len self →
  quantization.dataset self !! Z.to_nat (index mod quantization.len self) = Some filepath →
  quantization.parent_name filepath ∉ quantization.class_names self →
  quantization.getitem imread preprocess self index
  = quantization.Throws quantization.ValueError.
Proof.
  unfold quantization.len. intros Hindex Hfile Hclass.
  unfold quantization.getitem, quantization.len.
  rewrite decide_False by lia.
  destruct (py_getitem_in_range (quantization.dataset self) index) as (p & -> & Hp); [lia |].
  rewrite Hfile in Hp. injection Hp as <-. cbn.
  by rewrite list_index_absent.
Qed.
End getitem.

Lemma getitem_in_range_witness :
  quantization.getitem read_path (λ p, p) flowers (-2)
  = quantization.Returns ((-2, 1%nat), ["/"; "data"; "rose"; "2.jpg"]).
Proof.
  apply (getitem_in_range read_path (λ p, p) flowers (-2) ["/"; "data"; "rose"; "2.jpg"] 1
           ["/"; "data"; "rose"; "2.jpg"]).
  - vm_compute. split; [discriminate | reflexivity].
  - reflexivity.
  - reflexivity.
  - intros j Hj. assert (j = 0%nat) as -> by lia. discriminate.
  - reflexivity.
Defined.

Lemma getitem_unknown_class_witness :
  quantization.getitem read_path (λ p, p) flowers 3
  = quantization.Throws quantization.ValueError.
Proof.
  apply (getitem_unknown_class read_path (λ p, p) flowers 3 ["/"; "data"; "cover.jpg"]).
  - vm_compute. split; [discriminate | reflexivity].
  - reflexivity.
  - vm_compute. intros Hin. repeat (apply elem_of_cons in Hin as [Hin | Hin]; [done |]).
    by apply elem_of_nil in Hin.
Defined.

(** ** The quantization notebook: Accuracy *)

Lemma argmax_from_spec (pre row : list Z) (best : Z) (best_at : nat) :
  pre !! best_at = Some best →
  first_maximum pre best_at →
  first_maximum (pre ++ row) (quantization.argmax_from best best_at (length pre) row).
Proof.
  revert pre best best_at. induction row as [|x row IH]; intros pre best best_at Hbest Hmax.
  - by rewrite app_nil_r.
  - cbn [quantization.argmax_from].
    destruct Hmax as (mx & Hmx & Hub & Hfirst).
    rewrite Hbest in Hmx. injection Hmx as <-.
    replace (pre ++ x :: row) with ((pre ++ [x]) ++ row) by (by rewrite <- app_assoc).
    replace (S (length pre)) with (length (pre ++ [x])) by (rewrite length_app; cbn; lia).
    destruct (Z.ltb_spec best x) as [Hlt | Hge].
    + apply IH.
      * by rewrite lookup_app_r, Nat.sub_diag.
      * exists x. split_and!.
        -- by rewrite lookup_app_r, Nat.sub_diag.
        -- intros y [Hy | ->%list_elem_of_singleton]%elem_of_app; [|lia].
           specialize (Hub y Hy). lia.
        -- intros j y Hj Hy. rewrite lookup_app_l in Hy by done.
           apply list_elem_of_lookup_2 in Hy. specialize (Hub y Hy). lia.
    + apply IH.
      * rewrite lookup_app_l; [done |]. by eapply lookup_lt_Some.
      * exists best. split_and!.
        -- rewrite lookup_app_l; [done |]. by eapply lookup_lt_Some.
        -- intros y [Hy | ->%list_elem_of_singleton]%elem_of_app; [by apply Hub | lia].
        -- intros j y Hj Hy. apply (Hfirst j y Hj).
           rewrite lookup_app_l in Hy; [done |].
           apply lookup_lt_Some in Hbest. lia.
Qed.

Lemma argmax_spec (row : list Z) :
  row ≠ [] → ∃ k, quantization.argmax row = quantization.Returns k ∧ first_maximum row k.
Proof.
  destruct row as [|x row]; [done |]. intros _. eexists. split; [reflexivity |].
  apply (argmax_from_spec [x] row x 0); [done |].
  exists x. split_and!; [done | by intros y ->%list_elem_of_singleton | intros j y Hj; lia].
Qed.

Lemma argmax_rows_spec (rows : list (list Z)) :
  Forall (λ row, row ≠ []) rows →
  ∃ predict, quantization.argmax_rows rows = quantization.Returns predict
             ∧ Forall2 first_maximum rows predict.
Proof.
  induction 1 as [|row rows Hrow _ (predict & IH & Hall)]; [by exists [] |].
  destruct (argmax_spec row Hrow) as (k & Hk & Hmax).
  exists (k :: predict). cbn. rewrite Hk. cbn. rewrite IH. cbn. split; [done |].
  by constructor.
Qed.

(** [update] followed by [value]: for scores with one non-empty row per entry
    of the target, [update] records one more list of matches, which tells for
    every row whether the first position of its greatest score equals the
    target, and [value] then returns that list under the name of the metric. *)
Theorem update_then_value (self : quantization.Accuracy) (output0 : list (list Z))
    (target : list nat) :
  length output0 = length target →
  Forall (λ row, row ≠ []) output0 →
  ∃ predict self',
    Forall2 first_maximum output0 predict
    ∧ quantization.update self output0 target = quantization.Returns (Some self')
    ∧ quantization._matches self'
      = quantization._matches self ++ [zip_with Nat.eqb predict target]
    ∧ quantization.value self'
      = quantization.Returns (quantization._name self, zip_with Nat.eqb predict target).
Proof.
  intros Hlen Hrows.
  destruct (argmax_rows_spec output0 Hrows) as (predict & Hpredict & Hmax).
  exists predict. eexists. split; [done |].
  unfold quantization.update. rewrite Hpredict. cbn.
  unfold quantization.elementwise_equal.
  rewrite decide_True by (apply Forall2_length in Hmax; congruence). cbn.
  split_and!; [reflexivity | reflexivity |].
  unfold quantization.value. cbn. by rewrite last_snoc.
Qed.

Lemma update_then_value_witness :
  ∃ predict self',
    Forall2 first_maximum [[1; 9; 9]; [5; 2; 0]] predict
    ∧ quantization.update two_of_three [[1; 9; 9]; [5; 2; 0]] [1; 2]%nat
      = quantization.Returns (Some self')
    ∧ quantization._matches self'
      = quantization._matches two_of_three ++ [zip_with Nat.eqb predict [1; 2]%nat]
    ∧ quantization.value self'
      = quantization.Returns (quantization._name two_of_three,
                              zip_with Nat.eqb predict [1; 2]%nat).
Proof.
  apply (update_then_value two_of_three [[1; 9; 9]; [5; 2; 0]] [1; 2]%nat).
  - reflexivity.
  - repeat constructor; discriminate.
Defined.

Lemma count_nonzero_single (matches : list (list bool)) :
  Forall (λ m, length m = 1%nat) matches →
  (quantization.count_nonzero matches ≤ length matches)%nat
  ∧ (quantization.count_nonzero matches = length matches
     ↔ Forall (λ m, m = [true]) matches).
Proof.
  unfold quantization.count_nonzero.
  induction 1 as [|m matches Hm _ [IHle IHeq]]; [done |].
  destruct m as [|b [|b' m]]; try done.
  change (mjoin ([b] :: matches)) with (b :: mjoin matches).
  destruct b.
  - rewrite filter_cons_True by done. cbn [length]. split; [lia |].
    rewrite Forall_cons. split.
    + intros [= Heq]. split; [done |]. by apply IHeq.
    + intros [_ Hall]. f_equal. by apply IHeq.
  - rewrite filter_cons_False by done. cbn [length]. split; [lia |].
    rewrite Forall_cons. split; [lia | by intros [[=] _]].
Qed.

(** With one prediction per update, [avg_value] is a value between 0 and 1,
    and it is 1 exactly when every prediction matched its target.  (The
    divisor is the number of updates, not the number of predictions.) *)
Theorem avg_value_single_predictions (self : quantization.Accuracy) :
  quantization._matches self ≠ [] →
  Forall (λ m, length m = 1%nat) (quantization._matches self) →
  ∃ q,
    quantization.avg_value self = quantization.Returns (quantization._name self, q)
    ∧ (0 <= q)%Q ∧ (q <= 1)%Q
    ∧ ((q == 1)%Q ↔ Forall (λ m, m = [true]) (quantization._matches self)).
Proof.
  intros Hupdated Hsingle.
  destruct (count_nonzero_single _ Hsingle) as [Hle Heq].
  unfold quantization.avg_value. cbv zeta.
  destruct (quantization._matches self) as [|m matches] eqn:Hmatches; [done |].
  rewrite <- Hmatches in *. eexists. split; [reflexivity |].
  assert (0 < length (quantization._matches self))%nat as Hpos
    by (rewrite Hmatches; cbn; lia).
  set (c := quantization.count_nonzero (quantization._matches self)) in *.
  set (n := length (quantization._matches self)) in *.
  destruct (Q_ratio_bounds (Z.of_nat c) (Z.of_nat n)) as [H0 H1]; [lia | lia |].
  split_and!; [done | done |].
  rewrite <- Heq. split.
  - intros Hq. apply Nat2Z.inj, inject_Z_injective.
    rewrite <- (Qmult_div_r (inject_Z (Z.of_nat c)) (inject_Z (Z.of_nat n))).
    + rewrite Hq. apply Qmult_1_r.
    + rewrite (inject_Z_injective (Z.of_nat n) 0). lia.
  - intros ->. apply Qmult_inv_r. rewrite (inject_Z_injective (Z.of_nat n) 0). lia.
Qed.

Lemma avg_value_single_predictions_witness :
  ∃ q,
    quantization.avg_value two_of_three
    = quantization.Returns (quantization._name two_of_three, q)
    ∧ (0 <= q)%Q ∧ (q <= 1)%Q
    ∧ ((q == 1)%Q ↔ Forall (λ m, m = [true]) (quantization._matches two_of_three)).
Proof.
  apply (avg_value_single_predictions two_of_three).
  - discriminate.
  - repeat constructor.
Defined.

(** With two predictions per update the value is no fraction any more: two
    updates with both predictions right give 2. *)
Example avg_value_of_pairs :
  quantization.avg_value
    {| quantization._name := "accuracy";
       quantization._matches := [[true; true]; [true; true]] |}
  = quantization.Returns ("accuracy", (4 # 2)%Q).
Proof. reflexivity. Qed.

(** A metric that was just created or reset has no value: [value] raises
    IndexError and [avg_value] raises ZeroDivisionError. *)
Example Accuracy_empty (self : quantization.Accuracy) :
  quantization.value (quantization.reset self) = quantization.Throws quantization.IndexError
  ∧ quantization.avg_value (quantization.reset self)
    = quantization.Throws quantization.ZeroDivisionError
  ∧ quantization.value quantization.Accuracy_init
    = quantization.Throws quantization.IndexError
  ∧ quantization.avg_value quantization.Accuracy_init
    = quantization.Throws quantization.ZeroDivisionError.
Proof. done. Qed.
